(** * schedule-to-calendar: the event normaliser and the ICS serialiser

    A shallow embedding of the route behind [POST /api/convert]:
    [parseEventsFromJSON], the response-shape handling of [processImage],
    [formatICSDateTime], [escapeICSValue], [generateCalendar] and the merge,
    de-duplication and sort steps of [POST], together with the parts of the
    JavaScript host they rely on (truthiness, [===], property access,
    [Date]).  The process time zone and [Date.parse] belong to the host and
    are parameters throughout. *)

From Stdlib Require Import ZArith Lia List String Ascii Bool.
From Stdlib Require Import Permutation Sorted.
Import ListNotations.

Set Warnings "-register-all".

Open Scope list_scope.
Open Scope string_scope.
Open Scope Z_scope.

(* ================================================================== *)
(** * JavaScript values *)

Module JS.

(** Values as [JSON.parse] produces them, plus [undefined] (the result of
    reading an absent property).  Strings are sequences of bytes (the UTF-8
    form of the text): every character this program inspects is ASCII.
    Arrays and objects carry the heap location they were allocated at, which
    is what [===] compares.  Of a number only its being zero and its equality
    with another number are ever observed here; integers stand for them. *)
Inductive value : Type :=
| Undefined
| Null
| Bool (b : bool)
| Number (n : Z)
| Str (s : string)
| Arr (loc : nat) (items : list value)
| Obj (loc : nat) (fields : list (string * value)).

(** ToBoolean. *)
Definition truthy (v : value) : bool :=
  match v with
  | Undefined | Null => false
  | Bool b => b
  | Number n => negb (n =? 0)
  | Str s => negb (s =? "")%string
  | Arr _ _ | Obj _ _ => true
  end.

(** [a || b]. *)
Definition or_else (a b : value) : value := if truthy a then a else b.

(** [a === b]. *)
Definition strict_equal (a b : value) : bool :=
  match a, b with
  | Undefined, Undefined => true
  | Null, Null => true
  | Bool x, Bool y => Bool.eqb x y
  | Number x, Number y => x =? y
  | Str x, Str y => (x =? y)%string
  | Arr l _, Arr l' _ => Nat.eqb l l'
  | Obj l _, Obj l' _ => Nat.eqb l l'
  | _, _ => false
  end.

Fixpoint lookup (k : string) (fields : list (string * value)) : value :=
  match fields with
  | [] => Undefined
  | (k', v) :: rest => if (k =? k')%string then v else lookup k rest
  end.

(** What a step of the program can do: complete with a value or throw. *)
Inductive completion (A : Type) : Type :=
| Normal (a : A)
| Throw (msg : string).
Arguments Normal {A} a.
Arguments Throw {A} msg.

(** [v.k] for the property names this program reads ([start], [end],
    [title], [summary], [description], [location], [events], [data]): none of
    them exists on a prototype, so only an object's own fields can supply one;
    reading a property of [null] or [undefined] throws a TypeError. *)
Definition get (v : value) (k : string) : completion value :=
  match v with
  | Undefined | Null => Throw "TypeError"
  | Obj _ fields => Normal (lookup k fields)
  | _ => Normal Undefined
  end.

(** [Array.isArray]. *)
Definition isArray (v : value) : bool :=
  match v with Arr _ _ => true | _ => false end.

End JS.

Notation "a '|||' b" := (JS.or_else a b) (at level 50, left associativity).

(* ================================================================== *)
(** * The host's Date, after ECMA-262 (Date objects, time values) *)

(** A time value is a number of milliseconds since the epoch, in UTC.  The
    abstract operations below are those of the standard, on integers. *)

Definition msPerDay : Z := 86400000.
Definition msPerHour : Z := 3600000.
Definition msPerMinute : Z := 60000.
Definition msPerSecond : Z := 1000.

Definition Day (t : Z) : Z := t / msPerDay.
Definition TimeWithinDay (t : Z) : Z := t mod msPerDay.

Definition isLeapYear (y : Z) : bool :=
  (y mod 4 =? 0) && (negb (y mod 100 =? 0) || (y mod 400 =? 0)).

Definition DaysInYear (y : Z) : Z := if isLeapYear y then 366 else 365.

Definition DayFromYear (y : Z) : Z :=
  365 * (y - 1970) + (y - 1969) / 4 - (y - 1901) / 100 + (y - 1601) / 400.

Definition TimeFromYear (y : Z) : Z := msPerDay * DayFromYear y.

(** The year a day number falls in: the largest [y] with
    [DayFromYear y <= d].  The mean year has 146097/400 days, which puts the
    estimate within one year of the answer. *)
Definition YearFromDay (d : Z) : Z :=
  let y := 1970 + (400 * d) / 146097 in
  if DayFromYear (y + 1) <=? d then y + 1
  else if DayFromYear y <=? d then y
  else y - 1.

Definition YearFromTime (t : Z) : Z := YearFromDay (Day t).

Definition InLeapYear (t : Z) : Z :=
  if isLeapYear (YearFromTime t) then 1 else 0.

Definition DayWithinYear (t : Z) : Z := Day t - DayFromYear (YearFromTime t).

(** Months are numbered from 0 (January) to 11 (December). *)
Definition MonthFromTime (t : Z) : Z :=
  let d := DayWithinYear t in
  let l := InLeapYear t in
  if d <? 31 then 0
  else if d <? 59 + l then 1
  else if d <? 90 + l then 2
  else if d <? 120 + l then 3
  else if d <? 151 + l then 4
  else if d <? 181 + l then 5
  else if d <? 212 + l then 6
  else if d <? 243 + l then 7
  else if d <? 273 + l then 8
  else if d <? 304 + l then 9
  else if d <? 334 + l then 10
  else 11.

(** Days of the year that precede the first of month [m] (0-based). *)
Definition daysBeforeMonth (m : Z) (leap : Z) : Z :=
  if m =? 0 then 0
  else if m =? 1 then 31
  else if m =? 2 then 59 + leap
  else if m =? 3 then 90 + leap
  else if m =? 4 then 120 + leap
  else if m =? 5 then 151 + leap
  else if m =? 6 then 181 + leap
  else if m =? 7 then 212 + leap
  else if m =? 8 then 243 + leap
  else if m =? 9 then 273 + leap
  else if m =? 10 then 304 + leap
  else 334 + leap.

Definition DateFromTime (t : Z) : Z :=
  DayWithinYear t - daysBeforeMonth (MonthFromTime t) (InLeapYear t) + 1.

Definition HourFromTime (t : Z) : Z := (t / msPerHour) mod 24.
Definition MinFromTime (t : Z) : Z := (t / msPerMinute) mod 60.
Definition SecFromTime (t : Z) : Z := (t / msPerSecond) mod 60.

Definition MakeTime (hour min sec ms : Z) : Z :=
  hour * msPerHour + min * msPerMinute + sec * msPerSecond + ms.

(** [MakeDay]: months beyond 0..11 carry into the year, and the day of the
    month is added as a plain offset, so it may run past the month's end. *)
Definition MakeDay (year month date : Z) : Z :=
  let ym := year + month / 12 in
  let mn := month mod 12 in
  DayFromYear ym + daysBeforeMonth mn (if isLeapYear ym then 1 else 0)
  + date - 1.

Definition MakeDate (day time : Z) : Z := day * msPerDay + time.

(** A Date object holds a time value or NaN ([None], an "Invalid Date"). *)
Definition Date : Type := option Z.

Definition TimeClip (t : Z) : Date :=
  if 8640000000000000 <? Z.abs t then None else Some t.

(** [isNaN(x)] for a number that is a time value or NaN. *)
Definition isNaN (x : option Z) : bool :=
  match x with None => true | Some _ => false end.

(** [d.getTime()]. *)
Definition getTime (d : Date) : option Z := d.

(** [x === y] on two numbers: NaN equals nothing, itself included. *)
Definition number_strict_equal (x y : option Z) : bool :=
  match x, y with
  | Some a, Some b => a =? b
  | _, _ => false
  end.

Section LocalTime.

(** The process time zone: [LocalTZA t true] is the offset of local time
    from UTC, in milliseconds, at the UTC time value [t], and
    [LocalTZA t false] the offset in force at the local time value [t]. *)
Variable LocalTZA : Z -> bool -> Z.

Definition LocalTime (t : Z) : Z := t + LocalTZA t true.
Definition UTC (t : Z) : Z := t - LocalTZA t false.

(** [new Date(year, month, day, hours, minutes, seconds)] on integers:
    a year from 0 to 99 means 1900 + year. *)
Definition Date_of_components (year month day hours minutes seconds : Z)
  : Date :=
  let yr := if (0 <=? year) && (year <=? 99) then 1900 + year else year in
  TimeClip (UTC (MakeDate (MakeDay yr month day)
                          (MakeTime hours minutes seconds 0))).

Definition getFullYear (d : Date) : option Z :=
  option_map (fun t => YearFromTime (LocalTime t)) d.
Definition getMonth (d : Date) : option Z :=
  option_map (fun t => MonthFromTime (LocalTime t)) d.
Definition getDate (d : Date) : option Z :=
  option_map (fun t => DateFromTime (LocalTime t)) d.
Definition getHours (d : Date) : option Z :=
  option_map (fun t => HourFromTime (LocalTime t)) d.
Definition getMinutes (d : Date) : option Z :=
  option_map (fun t => MinFromTime (LocalTime t)) d.
Definition getSeconds (d : Date) : option Z :=
  option_map (fun t => SecFromTime (LocalTime t)) d.

End LocalTime.

(** Two concrete zones: UTC, and a zone five hours behind UTC that moves its
    clocks forward one hour at 2026-03-08T07:00:00Z (02:00 local becomes
    03:00), as the eastern United States does; a local time inside the
    skipped hour is read with the offset in force before the change. *)
Definition zoneUTC : Z -> bool -> Z := fun _ _ => 0.

Definition zoneEastern : Z -> bool -> Z := fun t isUTC =>
  let change := 1772953200000 in
  if isUTC
  then if t <? change then -18000000 else -14400000
  else if t <? change - 14400000 then -18000000 else -14400000.

(* ================================================================== *)
(** * Strings and numbers of the host *)

Definition CR : ascii := ascii_of_nat 13.
Definition LF : ascii := ascii_of_nat 10.
Definition backslash : ascii := ascii_of_nat 92.
Definition CRLF : string := String CR (String LF "").

Definition isDigit (c : ascii) : bool :=
  ((48 <=? nat_of_ascii c) && (nat_of_ascii c <=? 57))%nat.

Definition digitValue (c : ascii) : Z := Z.of_nat (nat_of_ascii c) - 48.

Definition digitChar (d : Z) : ascii := ascii_of_nat (48 + Z.to_nat d).

(** [parseInt(s)] on a string that holds no sign, blank or radix prefix:
    the value of its leading decimal digits, NaN when there is none. *)
Fixpoint parseInt_from (acc : Z) (s : string) : Z :=
  match s with
  | String c rest =>
      if isDigit c then parseInt_from (10 * acc + digitValue c) rest else acc
  | EmptyString => acc
  end.

Definition parseInt (s : string) : option Z :=
  match s with
  | String c _ => if isDigit c then Some (parseInt_from 0 s) else None
  | EmptyString => None
  end.

(** Decimal digits of a non-negative integer, most significant first. *)
Fixpoint decimal_fuel (fuel : nat) (n : Z) (acc : string) : string :=
  let acc' := String (digitChar (n mod 10)) acc in
  match fuel with
  | O => acc'
  | S fuel' => if n <? 10 then acc' else decimal_fuel fuel' (n / 10) acc'
  end.

Definition decimal (n : Z) : string :=
  decimal_fuel (Z.to_nat (Z.log2 n)) n "".

(** [String(x)] for a number that is an integer or NaN. *)
Definition Number_toString (x : option Z) : string :=
  match x with
  | None => "NaN"
  | Some n => if n <? 0 then String "-" (decimal (- n)) else decimal n
  end.

Definition quoted (s : string) : string :=
  String (ascii_of_nat 34) s ++ String (ascii_of_nat 34) "".

Fixpoint repeat_char (c : ascii) (n : nat) : string :=
  match n with
  | O => ""
  | S n' => String c (repeat_char c n')
  end.

(** [s.padStart(n, c)] with a one-character filler. *)
Definition padStart (s : string) (n : nat) (c : ascii) : string :=
  repeat_char c (n - String.length s) ++ s.

(** [s.replace(/c/g, by)]: every occurrence of the character [c] replaced. *)
Fixpoint replaceAll (c : ascii) (by_ : string) (s : string) : string :=
  match s with
  | EmptyString => ""
  | String x rest =>
      if Ascii.eqb x c then by_ ++ replaceAll c by_ rest
      else String x (replaceAll c by_ rest)
  end.

(** [x + 1] on a number that may be NaN. *)
Definition plus1 (x : option Z) : option Z := option_map (fun n => n + 1) x.

(* ================================================================== *)
(** * The strict pattern of parseEventsFromJSON *)

Notation "x <- e ;; k" :=
  (match e with Some x => k | None => None end)
  (at level 61, e at next level, right associativity, only parsing).

(** [\d{n}] at the head of [s]: the digits matched and the rest. *)
Fixpoint matchDigits (n : nat) (s : string) : option (string * string) :=
  match n with
  | O => Some ("", s)
  | S n' =>
      match s with
      | String c rest =>
          if isDigit c then
            r <- matchDigits n' rest ;;
            Some (String c (fst r), snd r)
          else None
      | EmptyString => None
      end
  end.

Definition matchChar (c : ascii) (s : string) : option string :=
  match s with
  | String x rest => if Ascii.eqb x c then Some rest else None
  | EmptyString => None
  end.

(** The six capture groups of a successful match. *)
Record captures : Type := mkCaptures {
  cYear : string; cMonth : string; cDay : string;
  cHour : string; cMinute : string; cSecond : string
}.

(** [s.match(/^(\d{4})-(\d{2})-(\d{2})T(\d{2}):(\d{2}):(\d{2})/)]: the
    pattern is anchored at the start only, so what follows the seconds is
    not looked at. *)
Definition matchLocal (s : string) : option captures :=
  y <- matchDigits 4 s ;;
  s1 <- matchChar "-" (snd y) ;;
  mo <- matchDigits 2 s1 ;;
  s2 <- matchChar "-" (snd mo) ;;
  d <- matchDigits 2 s2 ;;
  s3 <- matchChar "T" (snd d) ;;
  h <- matchDigits 2 s3 ;;
  s4 <- matchChar ":" (snd h) ;;
  mi <- matchDigits 2 s4 ;;
  s5 <- matchChar ":" (snd mi) ;;
  se <- matchDigits 2 s5 ;;
  Some (mkCaptures (fst y) (fst mo) (fst d) (fst h) (fst mi) (fst se)).

(** [v.match(re)] on an arbitrary value: only a string has the method. *)
Definition value_match (v : JS.value) : JS.completion (option captures) :=
  match v with
  | JS.Str s => JS.Normal (matchLocal s)
  | _ => JS.Throw "TypeError"
  end.

(* ================================================================== *)
(** * Events and the normaliser *)

(** [interface ScheduleEvent].  The optional fields hold whatever the raw
    record supplied: the declared type [string] is not checked at run time. *)
Record ScheduleEvent : Type := mkEvent {
  start : Date;
  end_ : Date;
  title : JS.value;
  description : JS.value;
  location : JS.value
}.

Notation "x <-- e ;;; k" :=
  (match e with JS.Normal x => k | JS.Throw m => JS.Throw m end)
  (at level 61, e at next level, right associativity, only parsing).

Section Normaliser.

Variable LocalTZA : Z -> bool -> Z.

(** [new Date(s)] on a string, that is [Date.parse]: the time value read
    from [s], or NaN.  Which strings are understood, beyond the ISO format,
    is up to the engine. *)
Variable Date_parse : string -> Date.

(** [new Date(parseInt(m[1]), parseInt(m[2]) - 1, parseInt(m[3]),
             parseInt(m[4]), parseInt(m[5]), parseInt(m[6]))];
    a NaN argument gives an Invalid Date. *)
Definition Date_of_captures (m : captures) : Date :=
  y <- parseInt (cYear m) ;;
  mo <- parseInt (cMonth m) ;;
  d <- parseInt (cDay m) ;;
  h <- parseInt (cHour m) ;;
  mi <- parseInt (cMinute m) ;;
  se <- parseInt (cSecond m) ;;
  Date_of_components LocalTZA y (mo - 1) d h mi se.

(** The object literal pushed by either branch. *)
Definition makeEvent (event : JS.value) (startDate endDate : Date)
  : JS.completion ScheduleEvent :=
  t <-- JS.get event "title" ;;;
  su <-- JS.get event "summary" ;;;
  de <-- JS.get event "description" ;;;
  lo <-- JS.get event "location" ;;;
  JS.Normal (mkEvent startDate endDate
                     (t ||| su ||| JS.Str "Work Schedule")
                     (de ||| JS.Str "")
                     (lo ||| JS.Str "")).

(** The body of the [try] block for one raw record: [Normal (Some e)] when
    an event is pushed, [Normal None] on [continue], [Throw] when an
    exception reaches the [catch].  Past the two calls of [match] both
    values are strings; unless both matched, both go to [new Date(str)]. *)
Definition tryRecord (event : JS.value)
  : JS.completion (option ScheduleEvent) :=
  startStr <-- JS.get event "start" ;;;
  endStr <-- JS.get event "end" ;;;
  startMatch <-- value_match startStr ;;;
  endMatch <-- value_match endStr ;;;
  match startMatch, endMatch, startStr, endStr with
  | Some sm, Some em, _, _ =>
      let startDate := Date_of_captures sm in
      let endDate := Date_of_captures em in
      if isNaN (getTime startDate) || isNaN (getTime endDate)
      then JS.Normal None
      else e <-- makeEvent event startDate endDate ;;; JS.Normal (Some e)
  | _, _, JS.Str s, JS.Str e =>
      let startDate := Date_parse s in
      let endDate := Date_parse e in
      if isNaN (getTime startDate) || isNaN (getTime endDate)
      then JS.Normal None
      else ev <-- makeEvent event startDate endDate ;;; JS.Normal (Some ev)
  | _, _, _, _ => JS.Throw "TypeError"
  end.

(** The [for ... of] loop: [events] is the array built so far; the [catch]
    logs and lets the loop go on. *)
Fixpoint parseLoop (eventsData : list JS.value)
         (events : list ScheduleEvent) : list ScheduleEvent :=
  match eventsData with
  | [] => events
  | event :: rest =>
      match tryRecord event with
      | JS.Normal (Some e) => parseLoop rest (events ++ [e])%list
      | JS.Normal None => parseLoop rest events
      | JS.Throw _ => parseLoop rest events
      end
  end.

Definition parseEventsFromJSON (eventsData : list JS.value)
  : list ScheduleEvent :=
  parseLoop eventsData [].

(** What [processImage] gets from the model for one image. *)
Inductive reply : Type :=
| CallFailed (message : string)   (* the request itself throws *)
| NoContent                       (* no message content *)
| NotJSON                         (* JSON.parse throws *)
| Parsed (parsed : JS.value).

(** [Array.isArray(parsed) ? parsed : (parsed.events || parsed.data || [])]
    inside the [try] whose [catch] rethrows. *)
Definition selectEventsData (parsed : JS.value) : JS.completion JS.value :=
  if JS.isArray parsed then JS.Normal parsed
  else
    match JS.get parsed "events", JS.get parsed "data" with
    | JS.Normal ev, JS.Normal da => JS.Normal (ev ||| da ||| JS.Arr 0 [])
    | _, _ => JS.Throw "Failed to parse AI response"
    end.

(** [processImage], from the model's reply on. *)
Definition processImage (r : reply) : JS.completion (list ScheduleEvent) :=
  match r with
  | CallFailed message => JS.Throw message
  | NoContent => JS.Throw "No response from AI model"
  | NotJSON => JS.Throw "Failed to parse AI response"
  | Parsed parsed =>
      eventsData <-- selectEventsData parsed ;;;
      match eventsData with
      | JS.Arr _ items => JS.Normal (parseEventsFromJSON items)
      | _ => JS.Normal []
      end
  end.

End Normaliser.

(** Days in month [m] (1 to 12) of year [y]. *)
Definition DaysInMonth (y m : Z) : Z :=
  if m =? 2 then (if isLeapYear y then 29 else 28)
  else if (m =? 4) || (m =? 6) || (m =? 9) || (m =? 11) then 30
  else 31.

(** A concrete [Date.parse] to run examples with: it reads the ISO forms
    [YYYY-MM-DD] (taken as UTC), [YYYY-MM-DDTHH:mm] and
    [YYYY-MM-DDTHH:mm:ss] (taken as local time, or as UTC when a [Z]
    follows), requires every element to be in range, and answers NaN to
    anything else. *)
Definition isoTimeValue (LocalTZA : Z -> bool -> Z)
           (y mo d h mi se : Z) (rest : string) : Date :=
  if (1 <=? mo) && (mo <=? 12) && (1 <=? d) && (d <=? DaysInMonth y mo)
     && (h <=? 23) && (mi <=? 59) && (se <=? 59)
  then
    let t := MakeDate (MakeDay y (mo - 1) d) (MakeTime h mi se 0) in
    if (rest =? "")%string then TimeClip (UTC LocalTZA t)
    else if (rest =? "Z")%string then TimeClip t
    else None
  else None.

Definition isoDateParse (LocalTZA : Z -> bool -> Z) (s : string) : Date :=
  yy <- matchDigits 4 s ;;
  s1 <- matchChar "-" (snd yy) ;;
  mm <- matchDigits 2 s1 ;;
  s2 <- matchChar "-" (snd mm) ;;
  dd <- matchDigits 2 s2 ;;
  y <- parseInt (fst yy) ;;
  mo <- parseInt (fst mm) ;;
  d <- parseInt (fst dd) ;;
  match matchChar "T" (snd dd) with
  | None =>
      if (snd dd =? "")%string
      then isoTimeValue LocalTZA y mo d 0 0 0 "Z"
      else None
  | Some s3 =>
      hh <- matchDigits 2 s3 ;;
      s4 <- matchChar ":" (snd hh) ;;
      mi <- matchDigits 2 s4 ;;
      h <- parseInt (fst hh) ;;
      m <- parseInt (fst mi) ;;
      match matchChar ":" (snd mi) with
      | None => isoTimeValue LocalTZA y mo d h m 0 (snd mi)
      | Some s5 =>
          ss <- matchDigits 2 s5 ;;
          se <- parseInt (fst ss) ;;
          isoTimeValue LocalTZA y mo d h m se (snd ss)
      end
  end.

(* ================================================================== *)
(** * The serialiser *)

Section Serialiser.

Variable LocalTZA : Z -> bool -> Z.

Definition formatICSDateTime (date : Date) : string :=
  let year := getFullYear LocalTZA date in
  let month :=
    padStart (Number_toString (plus1 (getMonth LocalTZA date))) 2 "0" in
  let day := padStart (Number_toString (getDate LocalTZA date)) 2 "0" in
  let hours := padStart (Number_toString (getHours LocalTZA date)) 2 "0" in
  let minutes :=
    padStart (Number_toString (getMinutes LocalTZA date)) 2 "0" in
  let seconds :=
    padStart (Number_toString (getSeconds LocalTZA date)) 2 "0" in
  Number_toString year ++ month ++ day ++ "T"
    ++ hours ++ minutes ++ seconds.

Definition escapeICSValue (value : string) : string :=
  replaceAll LF (String backslash "n")
    (replaceAll "," (String backslash ",")
      (replaceAll ";" (String backslash ";")
        (replaceAll backslash (String backslash (String backslash ""))
           value))).

(** [escapeICSValue(v)] on an arbitrary value: only a string has a
    callable [replace]. *)
Definition escapeICSValue_of (v : JS.value) : JS.completion string :=
  match v with
  | JS.Str s => JS.Normal (escapeICSValue s)
  | _ => JS.Throw "TypeError"
  end.

(** The [forEach] callback: the text one event adds to [ics]. *)
Definition eventBlock (event : ScheduleEvent) : JS.completion string :=
  let start_ := formatICSDateTime (start event) in
  let end' := formatICSDateTime (end_ event) in
  summary <-- escapeICSValue_of (title event ||| JS.Str "Work Schedule") ;;;
  descr <-- escapeICSValue_of (description event ||| JS.Str "") ;;;
  loc <-- escapeICSValue_of (location event ||| JS.Str "") ;;;
  JS.Normal
    ("BEGIN:VEVENT" ++ CRLF
     ++ "DTSTART:" ++ start_ ++ CRLF
     ++ "DTEND:" ++ end' ++ CRLF
     ++ "SUMMARY:" ++ summary ++ CRLF
     ++ (if (descr =? "")%string then ""
         else "DESCRIPTION:" ++ descr ++ CRLF)
     ++ (if (loc =? "")%string then ""
         else "LOCATION:" ++ loc ++ CRLF)
     ++ "END:VEVENT" ++ CRLF).

Fixpoint forEachEvent (events : list ScheduleEvent) (ics : string)
  : JS.completion string :=
  match events with
  | [] => JS.Normal ics
  | event :: rest =>
      block <-- eventBlock event ;;;
      forEachEvent rest (ics ++ block)
  end.

Inductive calendarFormat : Type := outlook | apple.

Definition calendarHeader : string :=
  "BEGIN:VCALENDAR" ++ CRLF
  ++ "VERSION:2.0" ++ CRLF
  ++ "PRODID:-//Schedule to Calendar//Schedule Converter//EN" ++ CRLF
  ++ "CALSCALE:GREGORIAN" ++ CRLF
  ++ "METHOD:PUBLISH" ++ CRLF
  ++ "X-WR-CALNAME:Work Schedule" ++ CRLF.

Definition generateCalendar (events : list ScheduleEvent)
           (format : calendarFormat) : JS.completion string :=
  ics <-- forEachEvent events calendarHeader ;;;
  JS.Normal (ics ++ "END:VCALENDAR" ++ CRLF).

End Serialiser.

(** The inverse of the escaping, as a reader of the calendar text applies
    it: a backslash followed by [n] or [N] is a newline, a backslash followed
    by any other character is that character. *)
Fixpoint unescapeICSValue (s : string) : string :=
  match s with
  | EmptyString => ""
  | String c rest =>
      if Ascii.eqb c backslash then
        match rest with
        | EmptyString => String c ""
        | String x rest' =>
            String (if Ascii.eqb x "n" || Ascii.eqb x "N" then LF else x)
                   (unescapeICSValue rest')
        end
      else String c (unescapeICSValue rest)
  end.

(* ================================================================== *)
(** * Merging, de-duplication and sort in POST *)

(** [self.findIndex(pred)], -1 when no element satisfies [pred]. *)
Fixpoint findIndex_from {A : Type} (pred : A -> bool) (l : list A) (i : Z)
  : Z :=
  match l with
  | [] => -1
  | x :: rest => if pred x then i else findIndex_from pred rest (i + 1)
  end.

Definition findIndex {A : Type} (pred : A -> bool) (self : list A) : Z :=
  findIndex_from pred self 0.

(** [self.filter((x, index, self) => keep x index self)]. *)
Fixpoint filter_from {A : Type} (keep : A -> Z -> list A -> bool)
         (self l : list A) (index : Z) : list A :=
  match l with
  | [] => []
  | x :: rest =>
      if keep x index self
      then x :: filter_from keep self rest (index + 1)
      else filter_from keep self rest (index + 1)
  end.

Definition filterIndexed {A : Type} (keep : A -> Z -> list A -> bool)
           (self : list A) : list A :=
  filter_from keep self self 0.

(** The predicate handed to [findIndex] for a given [event]. *)
Definition sameEvent (event e : ScheduleEvent) : bool :=
  number_strict_equal (getTime (start e)) (getTime (start event))
  && number_strict_equal (getTime (end_ e)) (getTime (end_ event))
  && JS.strict_equal (title e) (title event).

Definition uniqueEvents (allEvents : list ScheduleEvent)
  : list ScheduleEvent :=
  filterIndexed
    (fun event index self => index =? findIndex (sameEvent event) self)
    allEvents.

(** [a.start.getTime() - b.start.getTime()], NaN when either is. *)
Definition compareStart (a b : ScheduleEvent) : option Z :=
  match getTime (start a), getTime (start b) with
  | Some x, Some y => Some (x - y)
  | _, _ => None
  end.

(** [Array.prototype.sort(cmp)].  The sort is stable and reads a NaN from the
    comparator as 0, so an element moves behind another only when the
    comparator is positive; the result is the one insertion builds. *)
Definition staysBefore {A : Type} (cmp : A -> A -> option Z) (x y : A)
  : bool :=
  match cmp x y with
  | Some v => v <=? 0
  | None => true
  end.

Fixpoint insertSorted {A : Type} (cmp : A -> A -> option Z) (x : A)
         (l : list A) : list A :=
  match l with
  | [] => [x]
  | y :: rest =>
      if staysBefore cmp x y then x :: y :: rest
      else y :: insertSorted cmp x rest
  end.

Definition sort {A : Type} (cmp : A -> A -> option Z) (l : list A)
  : list A :=
  fold_right (insertSorted cmp) [] l.

(** [errors.join(sep)]. *)
Fixpoint join (sep : string) (l : list string) : string :=
  match l with
  | [] => ""
  | [x] => x
  | x :: rest => x ++ sep ++ join sep rest
  end.

Inductive httpResponse : Type :=
| JsonError (status : Z) (error : string)
| CalendarFile (content : string).

(** The entry pushed to [errors] for the image at index [i]. *)
Definition imageError (i : Z) (errorMessage : string) : string :=
  "Image " ++ Number_toString (Some (i + 1)) ++ ": " ++ errorMessage.

Section Route.

Variable LocalTZA : Z -> bool -> Z.
Variable Date_parse : string -> Date.

(** The loop over the images: [allEvents] and [errors] as built so far,
    [i] the index of the next image. *)
Fixpoint processImages (images : list reply) (i : Z)
         (allEvents : list ScheduleEvent) (errors : list string)
  : list ScheduleEvent * list string :=
  match images with
  | [] => (allEvents, errors)
  | image :: rest =>
      match processImage LocalTZA Date_parse image with
      | JS.Normal events =>
          processImages rest (i + 1) (allEvents ++ events)%list errors
      | JS.Throw errorMessage =>
          processImages rest (i + 1) allEvents
            (errors ++ [imageError i errorMessage])%list
      end
  end.

(** The sequence handed to [generateCalendar]. *)
Definition finalEvents (allEvents : list ScheduleEvent)
  : list ScheduleEvent :=
  sort compareStart (uniqueEvents allEvents).

Definition parseFormat (format : string) : option calendarFormat :=
  if (format =? "outlook")%string then Some outlook
  else if (format =? "apple")%string then Some apple
  else None.

(** [POST], from the form data on: whether the API key is configured, the
    reply obtained for each image, and the format field. *)
Definition POST (apiKey : bool) (images : list reply) (format : string)
  : httpResponse :=
  if negb apiKey then
    JsonError 500 "OpenAI API key is not configured. Please set OPENAI_API_KEY environment variable."
  else
    match images with
    | [] => JsonError 400 "No images provided"
    | _ :: _ =>
        match parseFormat format with
        | None =>
            JsonError 400
              ("Invalid format. Must be " ++ quoted "outlook" ++ " or "
               ++ quoted "apple")
        | Some fmt =>
            let (allEvents, errors) := processImages images 0 [] [] in
            match allEvents with
            | [] =>
                JsonError 400
                  (match errors with
                   | [] => "No schedule events found in any of the images. Please ensure the images are clear and contain readable work schedules."
                   | _ => "Failed to extract events from images. "
                          ++ join " " errors
                   end)
            | _ :: _ =>
                match generateCalendar LocalTZA (finalEvents allEvents) fmt
                with
                | JS.Normal calendarContent => CalendarFile calendarContent
                | JS.Throw message => JsonError 500 message
                end
            end
        end
    end.

End Route.

(* ================================================================== *)
(** * Notions used to state the properties *)

(** A civil date and time of day, the month counted from 1. *)
Record civil : Type := mkCivil {
  c_year : Z; c_month : Z; c_day : Z;
  c_hour : Z; c_minute : Z; c_second : Z
}.

(** [c] names a moment that exists in the Gregorian calendar. *)
Definition validCivil (c : civil) : Prop :=
  1 <= c_month c <= 12 /\
  1 <= c_day c <= DaysInMonth (c_year c) (c_month c) /\
  0 <= c_hour c <= 23 /\ 0 <= c_minute c <= 59 /\ 0 <= c_second c <= 59.

(** The numbers held by the six capture groups. *)
Definition capturedNumbers (m : captures) : option civil :=
  y <- parseInt (cYear m) ;;
  mo <- parseInt (cMonth m) ;;
  d <- parseInt (cDay m) ;;
  h <- parseInt (cHour m) ;;
  mi <- parseInt (cMinute m) ;;
  se <- parseInt (cSecond m) ;;
  Some (mkCivil y mo d h mi se).

(** The wall-clock fields a Date shows in the process time zone, as its
    getters return them (the month brought back to 1..12). *)
Definition wallClock (LocalTZA : Z -> bool -> Z) (d : Date) : option civil :=
  y <- getFullYear LocalTZA d ;;
  mo <- plus1 (getMonth LocalTZA d) ;;
  dd <- getDate LocalTZA d ;;
  h <- getHours LocalTZA d ;;
  mi <- getMinutes LocalTZA d ;;
  se <- getSeconds LocalTZA d ;;
  Some (mkCivil y mo dd h mi se).

(** The local time value of a civil date and time. *)
Definition localTimeValue (c : civil) : Z :=
  MakeDate (MakeDay (c_year c) (c_month c - 1) (c_day c))
           (MakeTime (c_hour c) (c_minute c) (c_second c) 0).

(** The zone is regular at the local time [tl]: the clocks do not skip it
    (converting it to UTC and back gives [tl] again) and the offset is less
    than a day. *)
Definition zoneRegularAt (LocalTZA : Z -> bool -> Z) (tl : Z) : Prop :=
  LocalTZA (UTC LocalTZA tl) true = LocalTZA tl false /\
  Z.abs (LocalTZA tl false) <= msPerDay.

(** The events of the images that were processed without error, in the
    order of the images. *)
Definition gatheredEvents (LocalTZA : Z -> bool -> Z)
           (Date_parse : string -> Date) (images : list reply)
  : list ScheduleEvent :=
  flat_map (fun image =>
              match processImage LocalTZA Date_parse image with
              | JS.Normal events => events
              | JS.Throw _ => []
              end) images.

(** The events one record contributes to the output. *)
Definition recordEvents (LocalTZA : Z -> bool -> Z)
           (Date_parse : string -> Date) (event : JS.value)
  : list ScheduleEvent :=
  match tryRecord LocalTZA Date_parse event with
  | JS.Normal (Some e) => [e]
  | _ => []
  end.

(** Every character of [s] is a decimal digit. *)
Fixpoint allDigits (s : string) : bool :=
  match s with
  | EmptyString => true
  | String c rest => isDigit c && allDigits rest
  end.

(** A raw record with the three fields the model is asked for, as an object
    allocated at [loc]. *)
Definition rawRecord (loc : nat) (startStr endStr titleStr : string)
  : JS.value :=
  JS.Obj loc [("start", JS.Str startStr); ("end", JS.Str endStr);
              ("title", JS.Str titleStr)].

(** What the start and end of a raw record parse to: absent when either is
    not a string; from the captured numbers when both match the strict
    pattern; by the fallback parse of both otherwise. *)
Definition recordDates (LocalTZA : Z -> bool -> Z)
           (Date_parse : string -> Date) (event : JS.value)
  : option (Date * Date) :=
  match JS.get event "start", JS.get event "end" with
  | JS.Normal (JS.Str s), JS.Normal (JS.Str e) =>
      match matchLocal s, matchLocal e with
      | Some sm, Some em =>
          Some (Date_of_captures LocalTZA sm, Date_of_captures LocalTZA em)
      | _, _ => Some (Date_parse s, Date_parse e)
      end
  | _, _ => None
  end.

(** Both dates of the record parsed to a time value. *)
Definition bothValid (dates : option (Date * Date)) : bool :=
  match dates with
  | Some (Some _, Some _) => true
  | _ => false
  end.

(** The strict strategy succeeds on [s]. *)
Definition parsesStrict (LocalTZA : Z -> bool -> Z) (s : string) : bool :=
  match matchLocal s with
  | Some m => negb (isNaN (Date_of_captures LocalTZA m))
  | None => false
  end.

(** The fallback strategy succeeds on [s]. *)
Definition parsesFallback (Date_parse : string -> Date) (s : string) : bool :=
  negb (isNaN (Date_parse s)).

(** A field of a record parses under at least one of the two strategies. *)
Definition fieldParses (LocalTZA : Z -> bool -> Z)
           (Date_parse : string -> Date) (field : JS.completion JS.value)
  : bool :=
  match field with
  | JS.Normal (JS.Str s) => parsesStrict LocalTZA s || parsesFallback Date_parse s
  | _ => false
  end.

(** Start and end each parse under some strategy, not necessarily the same. *)
Definition eachFieldParses (LocalTZA : Z -> bool -> Z)
           (Date_parse : string -> Date) (event : JS.value) : bool :=
  fieldParses LocalTZA Date_parse (JS.get event "start")
  && fieldParses LocalTZA Date_parse (JS.get event "end").

(** The record is valid for the normaliser: start and end are strings that
    parse under one common strategy, the strict one when both match the
    pattern and the fallback otherwise. *)
Definition validRecord (LocalTZA : Z -> bool -> Z)
           (Date_parse : string -> Date) (event : JS.value) : bool :=
  bothValid (recordDates LocalTZA Date_parse event).

(** The field [k] of a parsed value; a value that is not an object has
    none of the fields read here. *)
Definition fieldOf (parsed : JS.value) (k : string) : JS.value :=
  match parsed with
  | JS.Obj _ fields => JS.lookup k fields
  | _ => JS.Undefined
  end.

(** The raw records taken from a parsed response: the array itself; or else
    the first truthy one of its [events] and [data] fields when that is an
    array; or else none. *)
Definition chosenRecords (parsed : JS.value) : list JS.value :=
  match parsed with
  | JS.Arr _ items => items
  | _ =>
      match fieldOf parsed "events" ||| fieldOf parsed "data" with
      | JS.Arr _ items => items
      | _ => []
      end
  end.

(** The lines of a text, each closed by CR LF. *)
Definition crlfLines (lines : list string) : string :=
  fold_right (fun line text => line ++ CRLF ++ text) "" lines.

(** What the four replacements together make of one character. *)
Definition escapeChar (c : ascii) : string :=
  if Ascii.eqb c backslash then String backslash (String backslash "")
  else if Ascii.eqb c ";" then String backslash ";"
  else if Ascii.eqb c "," then String backslash ","
  else if Ascii.eqb c LF then String backslash "n"
  else String c "".

(** A number below 100 on two digits, a number below 10000 on four. *)
Definition twoDigits (n : Z) : string :=
  String (digitChar (n / 10)) (String (digitChar (n mod 10)) "").

Definition fourDigits (n : Z) : string :=
  String (digitChar (n / 1000))
    (String (digitChar (n / 100 mod 10))
       (String (digitChar (n / 10 mod 10))
          (String (digitChar (n mod 10)) ""))).

(** Year, month, day, the letter T, hour, minute, second: fifteen
    characters, no zone designator. *)
Definition compactDateTime (c : civil) : string :=
  fourDigits (c_year c) ++ twoDigits (c_month c) ++ twoDigits (c_day c)
  ++ "T" ++ twoDigits (c_hour c) ++ twoDigits (c_minute c)
  ++ twoDigits (c_second c).

(** Two dates are the same date. *)
Definition sameDate (a b : Date) : bool :=
  match a, b with
  | Some x, Some y => x =? y
  | None, None => true
  | _, _ => false
  end.

(** Two Events have identical (start, end, title) triples; description and
    location are not looked at. *)
Definition sameTriple (a b : ScheduleEvent) : bool :=
  sameDate (start a) (start b) && sameDate (end_ a) (end_ b)
  && JS.strict_equal (title a) (title b).

(** Neither date of the Event is an Invalid Date. *)
Definition hasValidDates (e : ScheduleEvent) : Prop :=
  isNaN (getTime (start e)) = false /\ isNaN (getTime (end_ e)) = false.


(** The start of [a] is not after the start of [b]. *)
Definition startLe (a b : ScheduleEvent) : Prop :=
  match getTime (start a), getTime (start b) with
  | Some x, Some y => x <= y
  | _, _ => False
  end.

(** What the filter of [uniqueEvents] computes, with the elements before
    the current one made explicit. *)
Fixpoint keepUnmatched (before l : list ScheduleEvent)
  : list ScheduleEvent :=
  match l with
  | [] => []
  | e :: rest =>
      if negb (existsb (sameEvent e) before) && sameEvent e e
      then e :: keepUnmatched (before ++ [e]) rest
      else keepUnmatched (before ++ [e]) rest
  end.

(* ================================================================== *)
(** * The earlier version of the normaliser *)

(** The route existed in an earlier form whose [parseEventsFromJSON] hands
    [event.start] and [event.end] to [new Date] as they are. *)
Module Legacy.

Section Normaliser.

Variable Date_parse : string -> Date.

(** [new Date(v)] for a value that is not a string: what the engine makes
    of it, which may involve converting an object to a primitive and so may
    throw. *)
Variable Date_of_other : JS.value -> JS.completion Date.

(** [new Date(v)]. *)
Definition Date_of_value (v : JS.value) : JS.completion Date :=
  match v with
  | JS.Str s => JS.Normal (Date_parse s)
  | _ => Date_of_other v
  end.

Definition tryRecord (event : JS.value)
  : JS.completion (option ScheduleEvent) :=
  startValue <-- JS.get event "start" ;;;
  startDate <-- Date_of_value startValue ;;;
  endValue <-- JS.get event "end" ;;;
  endDate <-- Date_of_value endValue ;;;
  if isNaN (getTime startDate) || isNaN (getTime endDate)
  then JS.Normal None
  else e <-- makeEvent event startDate endDate ;;; JS.Normal (Some e).

Fixpoint parseLoop (eventsData : list JS.value)
         (events : list ScheduleEvent) : list ScheduleEvent :=
  match eventsData with
  | [] => events
  | event :: rest =>
      match tryRecord event with
      | JS.Normal (Some e) => parseLoop rest (events ++ [e])%list
      | JS.Normal None => parseLoop rest events
      | JS.Throw _ => parseLoop rest events
      end
  end.

Definition parseEventsFromJSON (eventsData : list JS.value)
  : list ScheduleEvent :=
  parseLoop eventsData [].

End Normaliser.

End Legacy.

(* ================================================================== *)
(** * The page: choosing files and sending the request *)

Module Page.

(** What the page reads of a [File]. *)
Record File : Type := mkFile { name : string; type : string }.

Record FileWithPreview : Type := mkFileWithPreview {
  file : File;
  preview : string;
  id : string
}.

(** The state of the [Home] component that the handlers below touch, and
    [reading], the files whose [FileReader] has been started and has not
    finished yet. *)
Record state : Type := mkState {
  selectedFiles : list FileWithPreview;
  format : calendarFormat;
  error : option string;
  repeatWeekly : bool;
  repeatWeeks : Z;
  reading : list File
}.

Definition initial : state := mkState [] apple None false 4 [].

(** [file.type.startsWith('image/')]. *)
Definition isImage (f : File) : bool := String.prefix "image/" (type f).

Definition handleFilesSelect (files : list File) (st : state) : state :=
  let imageFiles := filter isImage files in
  match imageFiles with
  | [] =>
      mkState (selectedFiles st) (format st)
              (Some "Please select valid image files")
              (repeatWeekly st) (repeatWeeks st) (reading st)
  | _ :: _ =>
      mkState (selectedFiles st) (format st) None
              (repeatWeekly st) (repeatWeeks st)
              (reading st ++ imageFiles)%list
  end.

Fixpoint removeAt {A : Type} (k : nat) (l : list A) : list A :=
  match l, k with
  | [], _ => []
  | _ :: rest, O => rest
  | x :: rest, S k' => x :: removeAt k' rest
  end.

(** [reader.onloadend] of the reader at position [k] among those in flight:
    [result] is the data URL read, [now] and [random] what [Date.now()] and
    [Math.random()] print as. *)
Definition onloadend (k : nat) (result now random : string) (st : state)
  : state :=
  match nth_error (reading st) k with
  | None => st
  | Some f =>
      let newFile :=
        mkFileWithPreview f result (name f ++ "-" ++ now ++ "-" ++ random) in
      mkState (selectedFiles st ++ [newFile])%list (format st) (error st)
              (repeatWeekly st) (repeatWeeks st) (removeAt k (reading st))
  end.

Definition handleRemoveFile (id' : string) (st : state) : state :=
  mkState (filter (fun f => negb (id f =? id')%string) (selectedFiles st))
          (format st) (error st) (repeatWeekly st) (repeatWeeks st)
          (reading st).

Definition handleClearAll (st : state) : state :=
  mkState [] (format st) (error st) (repeatWeekly st) (repeatWeeks st)
          (reading st).

Definition setFormat (f : calendarFormat) (st : state) : state :=
  mkState (selectedFiles st) f (error st) (repeatWeekly st) (repeatWeeks st)
          (reading st).

(** [checkMobile]: a mobile device forces the Apple format. *)
Definition checkMobile (isMobileDevice : bool) (st : state) : state :=
  if isMobileDevice then setFormat apple st else st.

Definition setRepeatWeekly (checked : bool) (st : state) : state :=
  mkState (selectedFiles st) (format st) (error st) checked (repeatWeeks st)
          (reading st).

Section Handlers.

(** The engine's [parseInt] on what the number field holds: an integer or
    NaN (an overflow to Infinity acts here as any number above 52 does). *)
Variable parseInt : string -> option Z.

(** The [onChange] of the number-of-weeks field. *)
Definition onRepeatWeeksChange (value : string) (st : state) : state :=
  match parseInt value with
  | Some v =>
      if 0 <? v
      then mkState (selectedFiles st) (format st) (error st)
                   (repeatWeekly st) (Z.min 52 (Z.max 1 v)) (reading st)
      else st
  | None => st
  end.

(** What the user and the browser can do to the page. *)
Inductive action : Type :=
| FilesSelect (files : list File)
| LoadEnd (k : nat) (result now random : string)
| RemoveFile (id' : string)
| ClearAll
| SetFormat (f : calendarFormat)
| CheckMobile (isMobileDevice : bool)
| SetRepeatWeekly (checked : bool)
| RepeatWeeksChange (value : string).

Definition perform (st : state) (a : action) : state :=
  match a with
  | FilesSelect files => handleFilesSelect files st
  | LoadEnd k result now random => onloadend k result now random st
  | RemoveFile id' => handleRemoveFile id' st
  | ClearAll => handleClearAll st
  | SetFormat f => setFormat f st
  | CheckMobile m => checkMobile m st
  | SetRepeatWeekly c => setRepeatWeekly c st
  | RepeatWeeksChange value => onRepeatWeeksChange value st
  end.

(** The page after a run of actions, starting from its initial state. *)
Definition after (actions : list action) : state :=
  fold_left perform actions initial.

End Handlers.

(** The form data of the request. *)
Record request : Type := mkRequest {
  images : list File;
  formatField : string;
  repeatFields : list (string * string)
}.

Definition formatName (f : calendarFormat) : string :=
  match f with
  | outlook => "outlook"
  | apple => "apple"
  end.

(** [handleConvert] up to the [fetch]: the error it sets and the request it
    sends, if any. *)
Definition handleConvert (st : state) : option string * option request :=
  match selectedFiles st with
  | [] => (Some "Please select at least one image first", None)
  | _ :: _ =>
      (None,
       Some (mkRequest
               (map file (selectedFiles st))
               (formatName (format st))
               (if repeatWeekly st
                then [("repeatWeekly", "true");
                      ("repeatWeeks", Number_toString (Some (repeatWeeks st)))]
                else [])))
  end.

End Page.

(* ================================================================== *)
(** * Further notions used to state properties *)

(** A value the serialiser can write: a string, or a falsy value, for which
    the default is written. *)
Definition textual (v : JS.value) : bool :=
  match v with
  | JS.Str _ => true
  | _ => negb (JS.truthy v)
  end.

(** The text written for a textual value, [default] standing in for a falsy
    one. *)
Definition textOf (v : JS.value) (default : string) : string :=
  match v with
  | JS.Str s => if (s =? "")%string then default else s
  | _ => default
  end.

Definition serialisable (e : ScheduleEvent) : bool :=
  textual (title e) && textual (description e) && textual (location e).

(** A property line that is written only for a non-empty value. *)
Definition optionalLine (propertyName value : string) : list string :=
  if (value =? "")%string then []
  else [propertyName ++ escapeICSValue value].

Definition concatStrings (l : list string) : string :=
  fold_right append "" l.

(** A text in which every semicolon, comma and line feed is escaped: read
    from the left, a backslash is followed by a backslash, a semicolon, a
    comma or the letter n, and no semicolon, comma or line feed stands
    alone. *)
Fixpoint wellEscaped (s : string) : bool :=
  match s with
  | EmptyString => true
  | String c rest =>
      if Ascii.eqb c backslash then
        match rest with
        | EmptyString => false
        | String x rest' =>
            (Ascii.eqb x backslash || Ascii.eqb x ";" || Ascii.eqb x ","
             || Ascii.eqb x "n")
            && wellEscaped rest'
        end
      else
        negb (Ascii.eqb c ";" || Ascii.eqb c "," || Ascii.eqb c LF)
        && wellEscaped rest
  end.

(** The number of line feeds in a text. *)
Fixpoint countLF (s : string) : nat :=
  match s with
  | EmptyString => O
  | String c rest => ((if Ascii.eqb c LF then 1 else 0) + countLF rest)%nat
  end.

(** The image was processed without an exception. *)
Definition succeeded (LocalTZA : Z -> bool -> Z)
           (Date_parse : string -> Date) (image : reply) : bool :=
  match processImage LocalTZA Date_parse image with
  | JS.Normal _ => true
  | JS.Throw _ => false
  end.

(** The entries of [errors]: one for each image that raised, numbered from
    the position [i] of the first image on. *)
Fixpoint imageErrors (LocalTZA : Z -> bool -> Z)
         (Date_parse : string -> Date) (i : Z) (images : list reply)
  : list string :=
  match images with
  | [] => []
  | image :: rest =>
      match processImage LocalTZA Date_parse image with
      | JS.Normal _ => imageErrors LocalTZA Date_parse (i + 1) rest
      | JS.Throw message =>
          imageError i message
          :: imageErrors LocalTZA Date_parse (i + 1) rest
      end
  end.

(** The Events with the given start, in the order they stand in. *)
Definition startingAt (t : Z) (l : list ScheduleEvent)
  : list ScheduleEvent :=
  filter (fun e => sameDate (start e) (Some t)) l.

(** The lines of the block of one Event. *)
Definition eventLines (LocalTZA : Z -> bool -> Z) (event : ScheduleEvent)
  : list string :=
  app ["BEGIN:VEVENT";
       "DTSTART:" ++ formatICSDateTime LocalTZA (start event);
       "DTEND:" ++ formatICSDateTime LocalTZA (end_ event);
       "SUMMARY:" ++ escapeICSValue (textOf (title event) "Work Schedule")]
      (app (optionalLine "DESCRIPTION:" (textOf (description event) ""))
           (app (optionalLine "LOCATION:" (textOf (location event) ""))
                ["END:VEVENT"])).

(** The six lines every calendar opens with. *)
Definition headerLines : list string :=
  ["BEGIN:VCALENDAR";
   "VERSION:2.0";
   "PRODID:-//Schedule to Calendar//Schedule Converter//EN";
   "CALSCALE:GREGORIAN";
   "METHOD:PUBLISH";
   "X-WR-CALNAME:Work Schedule"].

(** What holds of the page in every state it can reach. *)
Definition pageInvariant (st : Page.state) : Prop :=
  Forall (fun f => Page.isImage (Page.file f) = true) (Page.selectedFiles st)
  /\ Forall (fun f => Page.isImage f = true) (Page.reading st)
  /\ 1 <= Page.repeatWeeks st <= 52.

(** Start and end of the record are strings, and they do not both match
    the strict pattern. *)
Definition looselyDated (event : JS.value) : bool :=
  match JS.get event "start", JS.get event "end" with
  | JS.Normal (JS.Str s), JS.Normal (JS.Str e) =>
      match matchLocal s, matchLocal e with
      | Some _, Some _ => false
      | _, _ => true
      end
  | _, _ => false
  end.

(** One date is valid and not after another valid date. *)
Definition notAfter (a b : Date) : Prop :=
  match a, b with
  | Some x, Some y => x <= y
  | _, _ => False
  end.

(* ================================================================== *)
(** * Calendar arithmetic *)

Ltac zdiv := unfold DayFromYear in *; Z.div_mod_to_equations; lia.

Lemma DayFromYear_succ (y : Z) :
  DayFromYear (y + 1) = DayFromYear y + DaysInYear y.
Proof.
  unfold DaysInYear, isLeapYear.
  destruct (y mod 4 =? 0) eqn:E4; destruct (y mod 100 =? 0) eqn:E100;
    destruct (y mod 400 =? 0) eqn:E400; cbn [andb orb negb];
    rewrite ?Z.eqb_eq, ?Z.eqb_neq in *; zdiv.
Qed.

Lemma YearFromDay_bounds (d : Z) :
  DayFromYear (YearFromDay d) <= d < DayFromYear (YearFromDay d + 1).
Proof.
  unfold YearFromDay.
  set (y := 1970 + 400 * d / 146097).
  assert (Hlo : DayFromYear (y - 1) <= d) by (subst y; zdiv).
  assert (Hhi : d < DayFromYear (y + 2)) by (subst y; zdiv).
  destruct (DayFromYear (y + 1) <=? d) eqn:E1.
  - apply Z.leb_le in E1. replace (y + 1 + 1) with (y + 2) by lia. lia.
  - apply Z.leb_gt in E1.
    destruct (DayFromYear y <=? d) eqn:E2.
    + apply Z.leb_le in E2. lia.
    + apply Z.leb_gt in E2. replace (y - 1 + 1) with y by lia. lia.
Qed.

Lemma DayFromYear_mono (a b : Z) : a <= b -> DayFromYear a <= DayFromYear b.
Proof. intros. zdiv. Qed.

Lemma YearFromDay_unique (y d : Z) :
  DayFromYear y <= d < DayFromYear (y + 1) -> YearFromDay d = y.
Proof.
  intros H. pose proof (YearFromDay_bounds d) as B.
  destruct (Z.lt_trichotomy (YearFromDay d) y) as [L | [E | G]]; auto.
  - pose proof (DayFromYear_mono (YearFromDay d + 1) y ltac:(lia)). lia.
  - pose proof (DayFromYear_mono (y + 1) (YearFromDay d) ltac:(lia)). lia.
Qed.

Lemma Day_MakeDate (day time : Z) :
  0 <= time < msPerDay -> Day (MakeDate day time) = day.
Proof.
  intros H. unfold Day, MakeDate, msPerDay in *.
  Z.div_mod_to_equations. lia.
Qed.

Lemma MakeTime_range (h mi s : Z) :
  0 <= h <= 23 -> 0 <= mi <= 59 -> 0 <= s <= 59 ->
  0 <= MakeTime h mi s 0 < msPerDay.
Proof.
  unfold MakeTime, msPerDay, msPerHour, msPerMinute, msPerSecond. lia.
Qed.

Lemma clock_of_MakeDate (day h mi s : Z) :
  0 <= h <= 23 -> 0 <= mi <= 59 -> 0 <= s <= 59 ->
  let t := MakeDate day (MakeTime h mi s 0) in
  HourFromTime t = h /\ MinFromTime t = mi /\ SecFromTime t = s.
Proof.
  intros Hh Hm Hs t. subst t.
  unfold HourFromTime, MinFromTime, SecFromTime, MakeDate, MakeTime,
    msPerDay, msPerHour, msPerMinute, msPerSecond.
  repeat split; Z.div_mod_to_equations; lia.
Qed.

Lemma MakeDay_in_year (y mo d : Z) :
  1 <= mo <= 12 ->
  MakeDay y (mo - 1) d =
  DayFromYear y + daysBeforeMonth (mo - 1) (if isLeapYear y then 1 else 0)
  + d - 1.
Proof.
  intros H. unfold MakeDay.
  replace ((mo - 1) / 12) with 0 by (Z.div_mod_to_equations; lia).
  replace ((mo - 1) mod 12) with (mo - 1) by (Z.div_mod_to_equations; lia).
  now rewrite Z.add_0_r.
Qed.

Ltac month_cases mo H :=
  assert (mo = 1 \/ mo = 2 \/ mo = 3 \/ mo = 4 \/ mo = 5 \/ mo = 6 \/
          mo = 7 \/ mo = 8 \/ mo = 9 \/ mo = 10 \/ mo = 11 \/ mo = 12)
    as H by lia;
  repeat (destruct H as [H | H]); subst mo.

(** The calendar fields of a day given by year, month and day of month. *)
Lemma date_of_day_in_year (y mo d : Z) :
  1 <= mo <= 12 -> 1 <= d <= DaysInMonth y mo ->
  let n := MakeDay y (mo - 1) d in
  YearFromDay n = y /\
  (forall t, Day t = n ->
     MonthFromTime t = mo - 1 /\ DateFromTime t = d).
Proof.
  intros Hmo Hd n. subst n. rewrite MakeDay_in_year by assumption.
  pose proof (DayFromYear_succ y) as Hs.
  assert (Hy : YearFromDay
                 (DayFromYear y
                  + daysBeforeMonth (mo - 1) (if isLeapYear y then 1 else 0)
                  + d - 1) = y).
  { apply YearFromDay_unique. rewrite Hs.
    unfold DaysInYear, DaysInMonth in *.
    month_cases mo Hc; destruct (isLeapYear y); cbn in *; lia. }
  split; [exact Hy|].
  intros t Ht.
  unfold DateFromTime, MonthFromTime, DayWithinYear, InLeapYear, YearFromTime.
  rewrite Ht, Hy.
  unfold DaysInMonth in Hd.
  month_cases mo Hc; destruct (isLeapYear y); cbn in Hd |- *;
    repeat match goal with
           | |- context [?a <? ?b] =>
               let E := fresh "E" in
               destruct (Z.ltb_spec a b) as [E | E]; try lia
           end; cbn; split; lia.
Qed.

(** Whatever the time value, the fields read from it form a civil date. *)
Lemma fields_of_time_valid (t : Z) :
  validCivil (mkCivil (YearFromTime t) (MonthFromTime t + 1) (DateFromTime t)
                      (HourFromTime t) (MinFromTime t) (SecFromTime t)).
Proof.
  unfold validCivil; cbn [c_year c_month c_day c_hour c_minute c_second].
  assert (Hclock : 0 <= HourFromTime t <= 23 /\ 0 <= MinFromTime t <= 59
                   /\ 0 <= SecFromTime t <= 59).
  { unfold HourFromTime, MinFromTime, SecFromTime.
    repeat split; Z.div_mod_to_equations; lia. }
  pose proof (YearFromDay_bounds (Day t)) as B.
  rewrite DayFromYear_succ in B.
  unfold DateFromTime, MonthFromTime, DayWithinYear, InLeapYear, DaysInMonth.
  fold (YearFromTime t) in B.
  set (y := YearFromTime t) in *.
  set (d := Day t - DayFromYear y).
  assert (Hd : 0 <= d < DaysInYear y) by (subst d; lia).
  clearbody d. unfold DaysInYear in Hd.
  destruct (isLeapYear y); cbn;
    repeat match goal with
           | |- context [?a <? ?b] =>
               let E := fresh "E" in
               destruct (Z.ltb_spec a b) as [E | E]; try lia
           end; cbn; lia.
Qed.

Section ZoneFacts.

Variable LocalTZA : Z -> bool -> Z.

Lemma Date_of_components_regular (c : civil) :
  validCivil c -> 100 <= c_year c <= 9999 ->
  zoneRegularAt LocalTZA (localTimeValue c) ->
  exists t,
    Date_of_components LocalTZA (c_year c) (c_month c - 1) (c_day c)
                       (c_hour c) (c_minute c) (c_second c) = Some t /\
    LocalTime LocalTZA t = localTimeValue c.
Proof.
  destruct c as [y mo d h mi s]. unfold validCivil, localTimeValue.
  cbn [c_year c_month c_day c_hour c_minute c_second].
  intros (Hmo & Hd & Hh & Hmi & Hs) Hy [Hgap Hoff].
  unfold Date_of_components.
  replace ((0 <=? y) && (y <=? 99)) with false
    by (symmetry; apply andb_false_iff; right; apply Z.leb_gt; lia).
  set (tl := MakeDate (MakeDay y (mo - 1) d) (MakeTime h mi s 0)) in *.
  exists (UTC LocalTZA tl). split.
  - unfold TimeClip.
    destruct (Z.ltb_spec 8640000000000000 (Z.abs (UTC LocalTZA tl)))
      as [E | E]; [exfalso | reflexivity].
    pose proof (MakeTime_range _ _ _ Hh Hmi Hs) as Ht.
    unfold UTC in E. subst tl. unfold MakeDate in *.
    rewrite MakeDay_in_year in * by assumption.
    unfold DaysInMonth in Hd. unfold msPerDay in *.
    assert (-700000 <= DayFromYear y <= 3000000) by zdiv.
    month_cases mo Hc; destruct (isLeapYear y); cbn in *; lia.
  - unfold LocalTime. rewrite Hgap. unfold UTC. lia.
Qed.

Lemma wallClock_of_local (t : Z) (c : civil) :
  validCivil c -> LocalTime LocalTZA t = localTimeValue c ->
  wallClock LocalTZA (Some t) = Some c.
Proof.
  destruct c as [y mo d h mi s]. unfold validCivil, localTimeValue.
  cbn [c_year c_month c_day c_hour c_minute c_second].
  intros (Hmo & Hd & Hh & Hmi & Hs) Hl.
  unfold wallClock, getFullYear, getMonth, getDate, getHours, getMinutes,
    getSeconds, plus1. cbn [option_map]. rewrite Hl.
  pose proof (MakeTime_range _ _ _ Hh Hmi Hs) as Ht.
  destruct (date_of_day_in_year _ _ _ Hmo Hd) as [Hy Hmd].
  destruct (Hmd _ (Day_MakeDate _ _ Ht)) as [Hm Hdd].
  destruct (clock_of_MakeDate (MakeDay y (mo - 1) d) _ _ _ Hh Hmi Hs)
    as (Eh & Em & Es).
  unfold YearFromTime. rewrite (Day_MakeDate _ _ Ht), Hy.
  rewrite Hm, Hdd, Eh, Em, Es.
  replace (mo - 1 + 1) with mo by lia. reflexivity.
Qed.

End ZoneFacts.

(* ================================================================== *)
(** * The strict pattern and parseInt *)

Lemma digitValue_range (c : ascii) :
  isDigit c = true -> 0 <= digitValue c <= 9.
Proof.
  unfold isDigit, digitValue. intros H.
  apply andb_true_iff in H as [H1 H2].
  apply Nat.leb_le in H1, H2. lia.
Qed.

Lemma matchDigits_spec (n : nat) : forall s r,
  matchDigits n s = Some r ->
  allDigits (fst r) = true /\ String.length (fst r) = n
  /\ s = fst r ++ snd r.
Proof.
  induction n as [| n IH]; intros s r H; cbn in H.
  - inversion H; subst; cbn; auto.
  - destruct s as [| c rest]; [discriminate|].
    destruct (isDigit c) eqn:Ec; [|discriminate].
    destruct (matchDigits n rest) as [r'|] eqn:Er; [|discriminate].
    inversion H; subst; clear H. cbn.
    destruct (IH _ _ Er) as (A & L & E).
    rewrite Ec, A, L. repeat split; auto. now rewrite E at 1.
Qed.

Lemma parseInt_from_bound (g : string) : forall acc,
  allDigits g = true -> 0 <= acc ->
  acc * 10 ^ Z.of_nat (String.length g) <= parseInt_from acc g
  < (acc + 1) * 10 ^ Z.of_nat (String.length g).
Proof.
  induction g as [| c g IH]; intros acc H Hacc; cbn [parseInt_from String.length].
  - cbn. lia.
  - cbn in H. apply andb_true_iff in H as [Hc Hg]. rewrite Hc.
    pose proof (digitValue_range c Hc) as Hv.
    specialize (IH (10 * acc + digitValue c) Hg ltac:(lia)).
    rewrite Nat2Z.inj_succ, Z.pow_succ_r by lia.
    assert (0 < 10 ^ Z.of_nat (String.length g)) by (apply Z.pow_pos_nonneg; lia).
    nia.
Qed.

Lemma parseInt_digits (g : string) (n : nat) :
  allDigits g = true -> String.length g = S n ->
  exists v, parseInt g = Some v /\ 0 <= v < 10 ^ Z.of_nat (S n).
Proof.
  intros H L. destruct g as [| c g]; [discriminate|].
  pose proof (parseInt_from_bound _ 0 H ltac:(lia)) as B. rewrite L in B.
  cbn in H. apply andb_true_iff in H as [Hc _].
  unfold parseInt. rewrite Hc. eexists; split; [reflexivity|]. lia.
Qed.

(** A match always yields six numbers, the year below 10000. *)
Lemma matchLocal_numbers (s : string) (m : captures) :
  matchLocal s = Some m ->
  exists c, capturedNumbers m = Some c /\ 0 <= c_year c <= 9999
            /\ 0 <= c_month c <= 99 /\ 0 <= c_day c <= 99
            /\ 0 <= c_hour c <= 99 /\ 0 <= c_minute c <= 99
            /\ 0 <= c_second c <= 99.
Proof.
  unfold matchLocal. intros H.
  repeat match type of H with
         | match ?e with Some _ => _ | None => _ end = _ =>
             let E := fresh "E" in
             destruct e eqn:E; [|discriminate]
         end.
  inversion H; subst; clear H.
  repeat match goal with
         | E : matchDigits _ _ = Some _ |- _ =>
             apply matchDigits_spec in E; destruct E as (?A & ?L & _)
         end.
  unfold capturedNumbers; cbn [cYear cMonth cDay cHour cMinute cSecond].
  repeat match goal with
         | A : allDigits ?g = true, L : String.length ?g = _ |- _ =>
             destruct (parseInt_digits _ _ A L) as (?v & -> & ?B);
             clear A L
         end.
  eexists; split; [reflexivity|]. cbn. change (10 ^ Z.of_nat 4) with 10000 in *.
  change (10 ^ Z.of_nat 2) with 100 in *. lia.
Qed.

Lemma Date_of_captures_numbers LocalTZA (m : captures) (c : civil) :
  capturedNumbers m = Some c ->
  Date_of_captures LocalTZA m =
  Date_of_components LocalTZA (c_year c) (c_month c - 1) (c_day c)
                     (c_hour c) (c_minute c) (c_second c).
Proof.
  unfold capturedNumbers, Date_of_captures. intros H.
  repeat match type of H with
         | match ?e with Some _ => _ | None => _ end = _ =>
             destruct e; [|discriminate]
         end.
  now inversion H.
Qed.

(* ================================================================== *)
(** * The normaliser, record by record *)

Lemma get_total (event : JS.value) (k : string) (v : JS.value) :
  JS.get event k = JS.Normal v ->
  forall k', exists v', JS.get event k' = JS.Normal v'.
Proof.
  destruct event; cbn; intros H k'; try discriminate; eauto.
Qed.

Lemma makeEvent_total (event : JS.value) (k : string) (v : JS.value)
      (sd ed : Date) :
  JS.get event k = JS.Normal v ->
  exists ev, makeEvent event sd ed = JS.Normal ev
             /\ start ev = sd /\ end_ ev = ed.
Proof.
  intros H. unfold makeEvent.
  destruct (get_total _ _ _ H "title") as [t ->].
  destruct (get_total _ _ _ H "summary") as [su ->].
  destruct (get_total _ _ _ H "description") as [de ->].
  destruct (get_total _ _ _ H "location") as [lo ->].
  eexists; split; [reflexivity|]. split; reflexivity.
Qed.

Section NormaliserFacts.

Variable LocalTZA : Z -> bool -> Z.
Variable Date_parse : string -> Date.

Lemma parseLoop_flat_map (eventsData : list JS.value) :
  forall events,
    parseLoop LocalTZA Date_parse eventsData events
    = (events ++ flat_map (recordEvents LocalTZA Date_parse) eventsData)%list.
Proof.
  induction eventsData as [| event rest IH]; intros events; cbn.
  - now rewrite app_nil_r.
  - unfold recordEvents at 1.
    destruct (tryRecord LocalTZA Date_parse event) as [[e |] | m]; rewrite IH; cbn;
      now rewrite <- ?app_assoc.
Qed.

Lemma parseEventsFromJSON_flat_map (eventsData : list JS.value) :
  parseEventsFromJSON LocalTZA Date_parse eventsData = flat_map (recordEvents LocalTZA Date_parse) eventsData.
Proof. unfold parseEventsFromJSON. now rewrite parseLoop_flat_map. Qed.

Lemma parseEventsFromJSON_app (l1 l2 : list JS.value) :
  parseEventsFromJSON LocalTZA Date_parse (l1 ++ l2)
  = (parseEventsFromJSON LocalTZA Date_parse l1 ++ parseEventsFromJSON LocalTZA Date_parse l2)%list.
Proof. rewrite !parseEventsFromJSON_flat_map. apply flat_map_app. Qed.


Lemma tryRecord_strict (event : JS.value) (s e : string)
      (sm em : captures) :
  JS.get event "start" = JS.Normal (JS.Str s) ->
  JS.get event "end" = JS.Normal (JS.Str e) ->
  matchLocal s = Some sm -> matchLocal e = Some em ->
  isNaN (Date_of_captures LocalTZA sm) = false ->
  isNaN (Date_of_captures LocalTZA em) = false ->
  exists ev, tryRecord LocalTZA Date_parse event = JS.Normal (Some ev)
             /\ start ev = Date_of_captures LocalTZA sm
             /\ end_ ev = Date_of_captures LocalTZA em.
Proof.
  intros Gs Ge Ms Me Ns Ne. unfold tryRecord.
  rewrite Gs, Ge. cbn [value_match]. rewrite Ms, Me.
  unfold getTime. rewrite Ns, Ne. cbn [orb].
  destruct (makeEvent_total event _ _ (Date_of_captures LocalTZA sm)
              (Date_of_captures LocalTZA em) Gs) as (ev & -> & Hs & He).
  eauto.
Qed.

End NormaliserFacts.

(* ================================================================== *)
(** * C1: the strict pattern and the wall clock *)

(** C1, as amended.  When the start and end strings of a raw record both
    match the strict pattern, the captured numbers name a moment that exists
    in the calendar (month 1 to 12, day within the month, hour at most 23,
    minute and second at most 59) in a year from 100 on, and the process
    time zone does not skip that local time, then the record yields an Event
    whose wall-clock year, month, day, hour, minute and second are the
    captured numbers; whatever follows the seconds in the string, a zone
    suffix included, plays no part. *)
Theorem strict_pattern_wall_clock
        (LocalTZA : Z -> bool -> Z) (Date_parse : string -> Date)
        (event : JS.value) (s e : string) (sm em : captures)
        (cs ce : civil) :
  JS.get event "start" = JS.Normal (JS.Str s) ->
  JS.get event "end" = JS.Normal (JS.Str e) ->
  matchLocal s = Some sm -> matchLocal e = Some em ->
  capturedNumbers sm = Some cs -> capturedNumbers em = Some ce ->
  validCivil cs -> validCivil ce ->
  100 <= c_year cs -> 100 <= c_year ce ->
  zoneRegularAt LocalTZA (localTimeValue cs) ->
  zoneRegularAt LocalTZA (localTimeValue ce) ->
  exists ev,
    parseEventsFromJSON LocalTZA Date_parse [event] = [ev]
    /\ wallClock LocalTZA (start ev) = Some cs
    /\ wallClock LocalTZA (end_ ev) = Some ce.
Proof.
  intros Gs Ge Ms Me Cs Ce Vs Ve Ys Ye Zs Ze.
  destruct (matchLocal_numbers _ _ Ms) as (cs' & Cs' & Bs & _).
  destruct (matchLocal_numbers _ _ Me) as (ce' & Ce' & Be & _).
  rewrite Cs in Cs'; injection Cs' as <-.
  rewrite Ce in Ce'; injection Ce' as <-.
  destruct (Date_of_components_regular LocalTZA cs Vs ltac:(lia) Zs)
    as (ts & Ds & Ls).
  destruct (Date_of_components_regular LocalTZA ce Ve ltac:(lia) Ze)
    as (te & De & Le).
  rewrite <- (Date_of_captures_numbers LocalTZA sm cs Cs) in Ds.
  rewrite <- (Date_of_captures_numbers LocalTZA em ce Ce) in De.
  destruct (tryRecord_strict LocalTZA Date_parse event s e sm em Gs Ge Ms Me)
    as (ev & T & Es & Ee).
  { now rewrite Ds. }
  { now rewrite De. }
  exists ev. rewrite parseEventsFromJSON_flat_map. cbn [flat_map].
  unfold recordEvents. rewrite T, Es, Ee, Ds, De. cbn [app].
  split; [reflexivity|].
  split; apply wallClock_of_local; assumption.
Qed.

Lemma strict_pattern_wall_clock_witness :
  exists ev,
    parseEventsFromJSON zoneEastern (isoDateParse zoneEastern)
      [rawRecord 1 "2026-01-10T15:00:00Z" "2026-01-10T22:00:00+05:00" "Coverage"]
    = [ev]
    /\ wallClock zoneEastern (start ev) = Some (mkCivil 2026 1 10 15 0 0)
    /\ wallClock zoneEastern (end_ ev) = Some (mkCivil 2026 1 10 22 0 0).
Proof.
  apply (strict_pattern_wall_clock zoneEastern (isoDateParse zoneEastern)
           (rawRecord 1 "2026-01-10T15:00:00Z" "2026-01-10T22:00:00+05:00"
                      "Coverage")
           "2026-01-10T15:00:00Z" "2026-01-10T22:00:00+05:00"
           (mkCaptures "2026" "01" "10" "15" "00" "00")
           (mkCaptures "2026" "01" "10" "22" "00" "00"));
    try reflexivity;
    try (unfold validCivil; cbn; lia);
    try (cbn; lia);
    (split; vm_compute; [reflexivity | discriminate]).
Defined.

(** The claim as first stated fails: the 30th of February matches the
    pattern, and the Date built from it shows the 2nd of March. *)
Lemma strict_pattern_day_overflow :
  option_map capturedNumbers (matchLocal "2026-02-30T10:00:00")
  = Some (Some (mkCivil 2026 2 30 10 0 0))
  /\ map (fun ev => wallClock zoneUTC (start ev))
         (parseEventsFromJSON zoneUTC (isoDateParse zoneUTC)
            [rawRecord 1 "2026-02-30T10:00:00" "2026-02-30T18:00:00" "Shift"])
     = [Some (mkCivil 2026 3 2 10 0 0)].
Proof. split; vm_compute; reflexivity. Qed.

(* ================================================================== *)
(** * C2: kept records carry valid dates *)

Section RecordDates.

Variable LocalTZA : Z -> bool -> Z.
Variable Date_parse : string -> Date.

Lemma tryRecord_recordDates (event : JS.value) :
  match recordDates LocalTZA Date_parse event with
  | Some (Some ts, Some te) =>
      exists ev, tryRecord LocalTZA Date_parse event = JS.Normal (Some ev)
                 /\ start ev = Some ts /\ end_ ev = Some te
  | _ => forall ev,
      tryRecord LocalTZA Date_parse event <> JS.Normal (Some ev)
  end.
Proof.
  unfold recordDates, tryRecord.
  destruct (JS.get event "start") as [startStr |] eqn:Gs;
    [| intros ev; discriminate].
  destruct (JS.get event "end") as [endStr |] eqn:Ge;
    [| destruct startStr; intros ev; discriminate].
  destruct startStr as [| | | | s | |]; cbn [value_match];
    try (intros ev; discriminate).
  destruct endStr as [| | | | e | |]; cbn [value_match];
    try (intros ev; discriminate).
  assert (K : forall sd ed,
    match sd, ed with
    | Some ts, Some te =>
        exists ev,
          (if isNaN (getTime sd) || isNaN (getTime ed)
           then JS.Normal None
           else match makeEvent event sd ed with
                | JS.Normal e0 => JS.Normal (Some e0)
                | JS.Throw m => JS.Throw m
                end) = JS.Normal (Some ev)
          /\ start ev = Some ts /\ end_ ev = Some te
    | _, _ =>
        forall ev,
          (if isNaN (getTime sd) || isNaN (getTime ed)
           then JS.Normal None
           else match makeEvent event sd ed with
                | JS.Normal e0 => JS.Normal (Some e0)
                | JS.Throw m => JS.Throw m
                end) <> JS.Normal (Some ev)
    end).
  { intros [ts |] [te |]; cbn; try (intros ev; discriminate).
    destruct (makeEvent_total event _ _ (Some ts) (Some te) Gs)
      as (ev & -> & Es & Ee). eauto. }
  destruct (matchLocal s) as [sm |], (matchLocal e) as [em |]; apply K.
Qed.

Lemma recordEvents_valid (event : JS.value) :
  bothValid (recordDates LocalTZA Date_parse event) = true ->
  exists ev ts te,
    recordEvents LocalTZA Date_parse event = [ev]
    /\ recordDates LocalTZA Date_parse event = Some (Some ts, Some te)
    /\ start ev = Some ts /\ end_ ev = Some te.
Proof.
  intros H. pose proof (tryRecord_recordDates event) as T.
  unfold recordEvents.
  destruct (recordDates LocalTZA Date_parse event) as [[[ts |] [te |]] |];
    try discriminate.
  destruct T as (ev & -> & Es & Ee). exists ev, ts, te. auto.
Qed.

Lemma recordEvents_invalid (event : JS.value) :
  bothValid (recordDates LocalTZA Date_parse event) = false ->
  recordEvents LocalTZA Date_parse event = [].
Proof.
  intros H. pose proof (tryRecord_recordDates event) as T.
  unfold recordEvents.
  destruct (tryRecord LocalTZA Date_parse event) as [[ev |] |] eqn:E;
    try reflexivity.
  exfalso.
  destruct (recordDates LocalTZA Date_parse event) as [[[ts |] [te |]] |];
    try discriminate; now apply (T ev).
Qed.

End RecordDates.







(* ================================================================== *)
(** * C7: invalid records are dropped, the batch goes on *)

Lemma fieldParses_recordDates LocalTZA Date_parse (event : JS.value) :
  eachFieldParses LocalTZA Date_parse event = false ->
  validRecord LocalTZA Date_parse event = false.
Proof.
  unfold eachFieldParses, validRecord, recordDates, fieldParses,
    parsesStrict, parsesFallback.
  destruct (JS.get event "start") as [[| | | | s | |] |]; try reflexivity;
    destruct (JS.get event "end") as [[| | | | e | |] |]; try reflexivity.
  destruct (matchLocal s) as [sm |], (matchLocal e) as [em |]; cbn [bothValid];
    repeat match goal with
           | |- context [Date_of_captures LocalTZA ?m] =>
               destruct (Date_of_captures LocalTZA m)
           | |- context [Date_parse ?x] => destruct (Date_parse x)
           end; cbn; try reflexivity; try discriminate.
Qed.

(** C7, as amended.  A record whose start or end fails to parse under both
    strategies yields no Event; processing a batch is processing its parts
    one after the other, so no record stops the rest; and the batch yields
    exactly one Event per valid record, in input order and with the dates
    the record parsed to, where a record is valid when its start and end are
    strings that both match the strict pattern and give valid dates, or do
    not both match it and both parse under the fallback strategy. *)
Theorem invalid_records_are_dropped
        (LocalTZA : Z -> bool -> Z) (Date_parse : string -> Date) :
  (forall event,
      eachFieldParses LocalTZA Date_parse event = false ->
      parseEventsFromJSON LocalTZA Date_parse [event] = [])
  /\ (forall l1 l2,
         parseEventsFromJSON LocalTZA Date_parse (l1 ++ l2)
         = (parseEventsFromJSON LocalTZA Date_parse l1
            ++ parseEventsFromJSON LocalTZA Date_parse l2)%list)
  /\ (forall eventsData,
         let valid := filter (validRecord LocalTZA Date_parse) eventsData in
         List.length (parseEventsFromJSON LocalTZA Date_parse eventsData)
         = List.length valid
         /\ map (fun ev => Some (start ev, end_ ev))
                (parseEventsFromJSON LocalTZA Date_parse eventsData)
            = map (recordDates LocalTZA Date_parse) valid).
Proof.
  split; [| split].
  - intros event H. rewrite parseEventsFromJSON_flat_map. cbn [flat_map].
    rewrite recordEvents_invalid; [reflexivity|].
    now apply fieldParses_recordDates.
  - apply parseEventsFromJSON_app.
  - intros eventsData valid. subst valid.
    rewrite parseEventsFromJSON_flat_map.
    induction eventsData as [| event rest [IHl IHm]]; [split; reflexivity|].
    cbn [flat_map filter].
    destruct (validRecord LocalTZA Date_parse event) eqn:V;
      unfold validRecord in V.
    + destruct (recordEvents_valid _ _ _ V)
        as (ev & ts & te & -> & R & Es & Ee).
      cbn [app List.length map]. rewrite IHl, IHm, Es, Ee, R.
      split; reflexivity.
    + rewrite (recordEvents_invalid _ _ _ V). cbn [app]. auto.
Qed.

Lemma invalid_records_are_dropped_witness :
  parseEventsFromJSON zoneUTC (isoDateParse zoneUTC)
    [rawRecord 1 "tomorrow" "2026-01-10T22:00:00" "Shift"] = [].
Proof.
  apply (proj1 (invalid_records_are_dropped zoneUTC (isoDateParse zoneUTC))).
  reflexivity.
Defined.

(** The claim as first stated fails: the start below parses under the strict
    strategy and the end under the fallback, so the record is not one of
    those described as dropped; it is dropped all the same, because the end
    sends both strings to the fallback parse, which rejects month 13. *)
Lemma mixed_record_is_dropped :
  filter (eachFieldParses zoneUTC (isoDateParse zoneUTC))
         [rawRecord 1 "2026-13-01T09:00:00" "2026-01-10" "Shift"]
  = [rawRecord 1 "2026-13-01T09:00:00" "2026-01-10" "Shift"]
  /\ parseEventsFromJSON zoneUTC (isoDateParse zoneUTC)
       [rawRecord 1 "2026-13-01T09:00:00" "2026-01-10" "Shift"] = [].
Proof. split; vm_compute; reflexivity. Qed.

(* ================================================================== *)
(** * C8: the shape of the collaborator's response *)

(** C8, as amended.  For every parsed response other than null: an array is
    used directly; otherwise the [events] field is taken when it is truthy
    and the [data] field when [events] is falsy, and used when it is an
    array; in every remaining case the result is the empty sequence.  No
    exception is raised. *)
Theorem response_shapes
        (LocalTZA : Z -> bool -> Z) (Date_parse : string -> Date)
        (parsed : JS.value) :
  parsed <> JS.Null -> parsed <> JS.Undefined ->
  processImage LocalTZA Date_parse (Parsed parsed)
  = JS.Normal (parseEventsFromJSON LocalTZA Date_parse (chosenRecords parsed)).
Proof.
  intros Hn Hu. unfold processImage, selectEventsData, chosenRecords.
  destruct parsed as [| | b | n | s | loc items | loc fields];
    try contradiction; cbn [JS.isArray JS.get fieldOf]; try reflexivity.
  unfold JS.or_else.
  destruct (JS.lookup "events" fields) as [| | [|] | n | s | l i | l f];
    destruct (JS.lookup "data" fields) as [| | [|] | n' | s' | l' i' | l' f'];
    repeat first
           [ reflexivity
           | progress cbn [JS.truthy negb]
           | match goal with
             | |- context [negb ?b] => destruct b
             end ].
Qed.

Lemma response_shapes_witness :
  processImage zoneUTC (isoDateParse zoneUTC)
    (Parsed (JS.Obj 1 [("data",
       JS.Arr 2 [rawRecord 3 "2026-02-01T09:00:00" "2026-02-01T17:00:00"
                           "Shift"])]))
  = JS.Normal
      (parseEventsFromJSON zoneUTC (isoDateParse zoneUTC)
         [rawRecord 3 "2026-02-01T09:00:00" "2026-02-01T17:00:00" "Shift"]).
Proof.
  apply (response_shapes zoneUTC (isoDateParse zoneUTC)); discriminate.
Defined.

(** The claim as first stated fails: the response [null] is neither an
    array nor an object, and it raises instead of giving no events. *)
Lemma null_response_raises :
  processImage zoneUTC (isoDateParse zoneUTC) (Parsed JS.Null)
  = JS.Throw "Failed to parse AI response".
Proof. reflexivity. Qed.

(** A truthy [events] field that is not an array hides the [data] array. *)
Remark events_field_hides_data :
  processImage zoneUTC (isoDateParse zoneUTC)
    (Parsed (JS.Obj 1 [("events", JS.Str "none");
                       ("data",
       JS.Arr 2 [rawRecord 3 "2026-02-01T09:00:00" "2026-02-01T17:00:00"
                           "Shift"])]))
  = JS.Normal [].
Proof. reflexivity. Qed.

(* ================================================================== *)
(** * C9 and C10: the format hint and the empty calendar *)

(** C9.  The two format hints give the same text for every sequence of
    Events, and the same response for every request. *)
Theorem format_hint_is_ignored
        (LocalTZA : Z -> bool -> Z) (Date_parse : string -> Date) :
  (forall events,
      generateCalendar LocalTZA events outlook
      = generateCalendar LocalTZA events apple)
  /\ (forall apiKey images,
         POST LocalTZA Date_parse apiKey images "outlook"
         = POST LocalTZA Date_parse apiKey images "apple").
Proof.
  split.
  - reflexivity.
  - intros apiKey images. unfold POST. cbn [parseFormat String.eqb].
    reflexivity.
Qed.

(** C10.  The calendar of no events is the opening line, the five header
    lines and the closing line, each ended by CR LF, and nothing else. *)
Theorem empty_calendar_is_envelope
        (LocalTZA : Z -> bool -> Z) (format : calendarFormat) :
  generateCalendar LocalTZA [] format
  = JS.Normal
      (crlfLines ["BEGIN:VCALENDAR";
                  "VERSION:2.0";
                  "PRODID:-//Schedule to Calendar//Schedule Converter//EN";
                  "CALSCALE:GREGORIAN";
                  "METHOD:PUBLISH";
                  "X-WR-CALNAME:Work Schedule";
                  "END:VCALENDAR"]).
Proof. reflexivity. Qed.

(* ================================================================== *)
(** * C5: escaping can be undone *)

Lemma replaceAll_app (c : ascii) (by_ s1 s2 : string) :
  replaceAll c by_ (s1 ++ s2) = replaceAll c by_ s1 ++ replaceAll c by_ s2.
Proof.
  induction s1 as [| x s1 IH]; cbn; [reflexivity|].
  destruct (Ascii.eqb x c); rewrite IH; cbn; [|reflexivity].
  generalize (replaceAll c by_ s1) (replaceAll c by_ s2). clear.
  intros r1 r2. induction by_ as [| y by_ IH]; cbn; [reflexivity|].
  now rewrite IH.
Qed.

Lemma escapeICSValue_app (s1 s2 : string) :
  escapeICSValue (s1 ++ s2) = escapeICSValue s1 ++ escapeICSValue s2.
Proof. unfold escapeICSValue. now rewrite !replaceAll_app. Qed.

Lemma escapeICSValue_char (c : ascii) :
  escapeICSValue (String c "") = escapeChar c.
Proof.
  unfold escapeICSValue, escapeChar.
  destruct (Ascii.eqb_spec c backslash) as [-> | Hb]; [reflexivity|].
  destruct (Ascii.eqb_spec c ";") as [-> | Hs]; [reflexivity|].
  destruct (Ascii.eqb_spec c ",") as [-> | Hc]; [reflexivity|].
  destruct (Ascii.eqb_spec c LF) as [-> | Hl]; [reflexivity|].
  apply Ascii.eqb_neq in Hb, Hs, Hc, Hl.
  cbn [replaceAll]. rewrite Hb. cbn [replaceAll]. rewrite Hs.
  cbn [replaceAll]. rewrite Hc. cbn [replaceAll]. now rewrite Hl.
Qed.

(** The escaping is character by character: the order of the replacements
    keeps a later one from touching what an earlier one inserted. *)
Lemma escapeICSValue_cons (c : ascii) (s : string) :
  escapeICSValue (String c s) = escapeChar c ++ escapeICSValue s.
Proof.
  change (String c s) with (String c "" ++ s).
  now rewrite escapeICSValue_app, escapeICSValue_char.
Qed.

Lemma unescape_escape (value : string) :
  unescapeICSValue (escapeICSValue value) = value.
Proof.
  induction value as [| c s IH]; [reflexivity|].
  rewrite escapeICSValue_cons. unfold escapeChar.
  destruct (Ascii.eqb_spec c backslash) as [-> | Hb];
    [cbn; now rewrite IH|].
  destruct (Ascii.eqb_spec c ";") as [-> | Hs]; [cbn; now rewrite IH|].
  destruct (Ascii.eqb_spec c ",") as [-> | Hc]; [cbn; now rewrite IH|].
  destruct (Ascii.eqb_spec c LF) as [-> | Hl]; [cbn; now rewrite IH|].
  cbn [append unescapeICSValue].
  apply Ascii.eqb_neq in Hb. rewrite Hb. now rewrite IH.
Qed.

(** C5.  The four replacements, backslash first, turn each backslash,
    semicolon, comma and newline into its escaped form and leave every other
    character alone; decoding the escaped form of any string gives the
    string back, so no two strings are escaped alike. *)
Theorem escaping_is_invertible :
  (forall c value,
      escapeICSValue (String c value) = escapeChar c ++ escapeICSValue value)
  /\ (forall value, unescapeICSValue (escapeICSValue value) = value)
  /\ (forall v w, escapeICSValue v = escapeICSValue w -> v = w).
Proof.
  split; [exact escapeICSValue_cons|]. split; [exact unescape_escape|].
  intros v w H.
  rewrite <- (unescape_escape v), <- (unescape_escape w). now rewrite H.
Qed.

Lemma escaping_is_invertible_witness :
  unescapeICSValue
    (escapeICSValue
       (String "a" (String ";" (String "," (String backslash
          (String LF "b"))))))
  = String "a" (String ";" (String "," (String backslash (String LF "b")))).
Proof. apply (proj1 (proj2 escaping_is_invertible)). Defined.

(** Were the backslash replaced last, the backslashes inserted for the other
    characters would be doubled and the text could not be recovered. *)
Remark backslash_last_is_not_invertible :
  let wrongOrder value :=
    replaceAll backslash (String backslash (String backslash ""))
      (replaceAll LF (String backslash "n")
        (replaceAll "," (String backslash ",")
          (replaceAll ";" (String backslash ";") value))) in
  unescapeICSValue (wrongOrder "a;b") <> "a;b".
Proof. vm_compute. discriminate. Qed.

(* ================================================================== *)
(** * C6: timestamps in compact floating form *)

Lemma decimal_fuel_last (fuel : nat) (n : Z) (acc : string) :
  0 <= n < 10 -> decimal_fuel fuel n acc = String (digitChar n) acc.
Proof.
  intros H. replace (digitChar n) with (digitChar (n mod 10))
    by (f_equal; Z.div_mod_to_equations; lia).
  destruct fuel; cbn [decimal_fuel]; [reflexivity|].
  destruct (Z.ltb_spec n 10); [reflexivity | lia].
Qed.

Lemma decimal_fuel_step (fuel : nat) (n : Z) (acc : string) :
  10 <= n ->
  decimal_fuel (S fuel) n acc
  = decimal_fuel fuel (n / 10) (String (digitChar (n mod 10)) acc).
Proof.
  intros H. cbn [decimal_fuel].
  destruct (Z.ltb_spec n 10); [lia | reflexivity].
Qed.

Lemma log2_fuel (n k : Z) :
  0 < k -> 2 ^ k <= n -> exists fuel, Z.to_nat (Z.log2 n) = (Z.to_nat k + fuel)%nat.
Proof.
  intros Hk H.
  assert (k <= Z.log2 n).
  { apply Z.log2_le_pow2; lia. }
  exists (Z.to_nat (Z.log2 n - k)). lia.
Qed.

Lemma decimal_one_digit (n : Z) :
  0 <= n <= 9 -> decimal n = String (digitChar n) "".
Proof. intros H. unfold decimal. apply decimal_fuel_last. lia. Qed.

Lemma decimal_two_digits (n : Z) :
  10 <= n <= 99 -> decimal n = twoDigits n.
Proof.
  intros H. unfold decimal.
  destruct (log2_fuel n 3 ltac:(lia) ltac:(cbn; lia)) as [fuel ->].
  change (Z.to_nat 3) with 3%nat. cbn [Nat.add].
  rewrite decimal_fuel_step by lia.
  rewrite decimal_fuel_last by (Z.div_mod_to_equations; lia).
  reflexivity.
Qed.

Lemma decimal_four_digits (n : Z) :
  1000 <= n <= 9999 -> decimal n = fourDigits n.
Proof.
  intros H. unfold decimal.
  destruct (log2_fuel n 9 ltac:(lia) ltac:(cbn; lia)) as [fuel ->].
  change (Z.to_nat 9) with 9%nat. cbn [Nat.add].
  rewrite !decimal_fuel_step by (Z.div_mod_to_equations; lia).
  rewrite decimal_fuel_last by (Z.div_mod_to_equations; lia).
  replace (n / 10 / 10 / 10) with (n / 1000)
    by (Z.div_mod_to_equations; lia).
  replace (n / 10 / 10) with (n / 100) by (Z.div_mod_to_equations; lia).
  reflexivity.
Qed.

Lemma padStart_two (n : Z) :
  0 <= n <= 99 -> padStart (Number_toString (Some n)) 2 "0" = twoDigits n.
Proof.
  intros H. unfold Number_toString.
  destruct (Z.ltb_spec n 0); [lia|].
  destruct (Z_lt_le_dec n 10).
  - rewrite decimal_one_digit by lia. unfold padStart, twoDigits. cbn.
    replace (n / 10) with 0 by (Z.div_mod_to_equations; lia).
    replace (n mod 10) with n by (Z.div_mod_to_equations; lia).
    reflexivity.
  - rewrite decimal_two_digits by lia. reflexivity.
Qed.

Lemma formatICSDateTime_compact LocalTZA (date : Date) (c : civil) :
  wallClock LocalTZA date = Some c -> 1000 <= c_year c <= 9999 ->
  formatICSDateTime LocalTZA date = compactDateTime c.
Proof.
  intros W Hy. destruct date as [t |]; [|discriminate].
  unfold wallClock, getFullYear, getMonth, getDate, getHours, getMinutes,
    getSeconds, plus1 in W. cbn [option_map] in W. injection W as <-.
  pose proof (fields_of_time_valid (LocalTime LocalTZA t)) as V.
  unfold validCivil in V. cbn [c_year c_month c_day c_hour c_minute c_second] in *.
  destruct V as (Hmo & Hd & Hh & Hmi & Hs).
  assert (Hd' : 1 <= DateFromTime (LocalTime LocalTZA t) <= 31).
  { unfold DaysInMonth in Hd.
    repeat match type of Hd with
           | context [if ?b then _ else _] => destruct b
           end; lia. }
  unfold formatICSDateTime, compactDateTime, getFullYear, getMonth, getDate,
    getHours, getMinutes, getSeconds, plus1.
  cbn [option_map c_year c_month c_day c_hour c_minute c_second].
  rewrite !padStart_two by lia.
  unfold Number_toString.
  destruct (Z.ltb_spec (YearFromTime (LocalTime LocalTZA t)) 0); [lia|].
  now rewrite decimal_four_digits by lia.
Qed.

(** C6, as amended.  For every Event whose start and end show a year from
    1000 to 9999 on the wall clock, the serialiser writes each of them as the
    four digits of the year, two of the month, two of the day, the letter T,
    two digits of the hour, two of the minute and two of the second, taken
    from the wall-clock fields of the Event, and the block of the Event opens
    with the lines DTSTART and DTEND holding just that, with no Z and no
    zone parameter. *)
Theorem timestamps_are_compact_floating
        (LocalTZA : Z -> bool -> Z) (event : ScheduleEvent) (cs ce : civil) :
  wallClock LocalTZA (start event) = Some cs ->
  wallClock LocalTZA (end_ event) = Some ce ->
  1000 <= c_year cs <= 9999 -> 1000 <= c_year ce <= 9999 ->
  formatICSDateTime LocalTZA (start event) = compactDateTime cs
  /\ formatICSDateTime LocalTZA (end_ event) = compactDateTime ce
  /\ forall block,
       eventBlock LocalTZA event = JS.Normal block ->
       exists rest,
         block = "BEGIN:VEVENT" ++ CRLF
                 ++ "DTSTART:" ++ compactDateTime cs ++ CRLF
                 ++ "DTEND:" ++ compactDateTime ce ++ CRLF
                 ++ "SUMMARY:" ++ rest.
Proof.
  intros Ws We Ys Ye.
  pose proof (formatICSDateTime_compact _ _ _ Ws Ys) as Fs.
  pose proof (formatICSDateTime_compact _ _ _ We Ye) as Fe.
  split; [exact Fs|]. split; [exact Fe|].
  intros block H. unfold eventBlock in H. rewrite Fs, Fe in H.
  destruct (escapeICSValue_of (title event ||| JS.Str "Work Schedule"));
    [|discriminate].
  destruct (escapeICSValue_of (description event ||| JS.Str ""));
    [|discriminate].
  destruct (escapeICSValue_of (location event ||| JS.Str ""));
    [|discriminate].
  injection H as <-. eexists. reflexivity.
Qed.

Lemma timestamps_are_compact_floating_witness :
  formatICSDateTime zoneEastern (Some 1768075200000) = "20260110T150000"
  /\ formatICSDateTime zoneEastern (Some 1768100400000) = "20260110T220000".
Proof.
  destruct (timestamps_are_compact_floating zoneEastern
              (mkEvent (Some 1768075200000) (Some 1768100400000)
                       (JS.Str "Coverage") (JS.Str "") (JS.Str ""))
              (mkCivil 2026 1 10 15 0 0) (mkCivil 2026 1 10 22 0 0)
              eq_refl eq_refl)
    as (A & B & _); [cbn; lia | cbn; lia |].
  split; [exact A | exact B].
Defined.

(** The claim as first stated fails: a second numbered 60 matches the
    pattern, carries the last minute of 9999 into the year 10000, and the
    year is then written with five digits. *)
Lemma year_10000_has_five_digits :
  map (fun ev => formatICSDateTime zoneUTC (start ev))
      (parseEventsFromJSON zoneUTC (isoDateParse zoneUTC)
         [rawRecord 1 "9999-12-31T23:59:60" "9999-12-31T23:59:60" "Shift"])
  = ["100000101T000000"].
Proof. vm_compute. reflexivity. Qed.

(** The year is not padded either: a year below 1000 loses its leading
    zero. *)
Remark year_999_has_three_digits :
  map (fun ev => formatICSDateTime zoneUTC (start ev))
      (parseEventsFromJSON zoneUTC (isoDateParse zoneUTC)
         [rawRecord 1 "0999-01-01T09:00:00" "0999-01-01T17:00:00" "Shift"])
  = ["9990101T090000"].
Proof. vm_compute. reflexivity. Qed.

(** The worked example of the specification, in the eastern zone. *)
Example coverage_shift_calendar :
  POST zoneEastern (isoDateParse zoneEastern) true
       [Parsed (JS.Obj 1 [("events",
          JS.Arr 2 [rawRecord 3 "2026-01-10T15:00:00" "2026-01-10T22:00:00"
                              "Coverage"])])]
       "outlook"
  = CalendarFile
      (crlfLines ["BEGIN:VCALENDAR";
                  "VERSION:2.0";
                  "PRODID:-//Schedule to Calendar//Schedule Converter//EN";
                  "CALSCALE:GREGORIAN";
                  "METHOD:PUBLISH";
                  "X-WR-CALNAME:Work Schedule";
                  "BEGIN:VEVENT";
                  "DTSTART:20260110T150000";
                  "DTEND:20260110T220000";
                  "SUMMARY:Coverage";
                  "END:VEVENT";
                  "END:VCALENDAR"]).
Proof. vm_compute. reflexivity. Qed.

(** Two remarks on the conditions of C1.  A year written 0050 is read as
    1950, and a local time inside the hour the clocks skip is moved on. *)
Remark two_digit_year_is_1900_based :
  map (fun ev => wallClock zoneUTC (start ev))
      (parseEventsFromJSON zoneUTC (isoDateParse zoneUTC)
         [rawRecord 1 "0050-01-01T09:00:00" "0050-01-01T17:00:00" "Shift"])
  = [Some (mkCivil 1950 1 1 9 0 0)].
Proof. vm_compute. reflexivity. Qed.

Remark skipped_hour_is_moved_on :
  map (fun ev => wallClock zoneEastern (start ev))
      (parseEventsFromJSON zoneEastern (isoDateParse zoneEastern)
         [rawRecord 1 "2026-03-08T02:30:00" "2026-03-08T10:00:00" "Shift"])
  = [Some (mkCivil 2026 3 8 3 30 0)].
Proof. vm_compute. reflexivity. Qed.

(* ================================================================== *)
(** * C4 and C3: de-duplication and sort *)

Lemma findIndex_from_range {A : Type} (pred : A -> bool) (l : list A) :
  forall i,
    findIndex_from pred l i = -1
    \/ i <= findIndex_from pred l i < i + Z.of_nat (List.length l).
Proof.
  induction l as [| x l IH]; intros i; cbn [findIndex_from List.length];
    [now left|].
  destruct (pred x); [right; lia|].
  destruct (IH (i + 1)) as [-> | H]; [now left | right; lia].
Qed.

Lemma findIndex_from_skip {A : Type} (pred : A -> bool) (pre l : list A) :
  forall i,
    existsb pred pre = false ->
    findIndex_from pred (pre ++ l) i
    = findIndex_from pred l (i + Z.of_nat (List.length pre)).
Proof.
  induction pre as [| x pre IH]; intros i H; cbn [app findIndex_from List.length].
  - f_equal. lia.
  - cbn in H. apply orb_false_iff in H as [-> H].
    rewrite IH by assumption. f_equal. lia.
Qed.

Lemma findIndex_from_hit {A : Type} (pred : A -> bool) (pre l : list A) :
  forall i,
    existsb pred pre = true ->
    i <= findIndex_from pred (pre ++ l) i < i + Z.of_nat (List.length pre).
Proof.
  induction pre as [| x pre IH]; intros i H; [discriminate|].
  cbn [app findIndex_from List.length]. cbn in H.
  destruct (pred x); [lia|]. cbn in H.
  specialize (IH (i + 1) H). lia.
Qed.

(** The test [index === self.findIndex(...)] at position [index]. *)
Lemma first_index_test (before rest : list ScheduleEvent)
      (e : ScheduleEvent) :
  (Z.of_nat (List.length before)
   =? findIndex (sameEvent e) (before ++ e :: rest))
  = negb (existsb (sameEvent e) before) && sameEvent e e.
Proof.
  unfold findIndex.
  destruct (existsb (sameEvent e) before) eqn:E; cbn [negb andb].
  - pose proof (findIndex_from_hit (sameEvent e) before (e :: rest) 0 E).
    apply Z.eqb_neq. lia.
  - rewrite findIndex_from_skip by assumption. cbn [findIndex_from].
    destruct (sameEvent e e) eqn:S.
    + apply Z.eqb_eq. lia.
    + apply Z.eqb_neq.
      destruct (findIndex_from_range (sameEvent e) rest
                  (0 + Z.of_nat (List.length before) + 1)); lia.
Qed.

Lemma filter_from_keepUnmatched (l : list ScheduleEvent) :
  forall before,
    filter_from
      (fun event index self => index =? findIndex (sameEvent event) self)
      (before ++ l) l (Z.of_nat (List.length before))
    = keepUnmatched before l.
Proof.
  induction l as [| e rest IH]; intros before; cbn [filter_from keepUnmatched];
    [reflexivity|].
  rewrite first_index_test.
  specialize (IH (before ++ [e])%list).
  rewrite <- app_assoc, length_app, Nat2Z.inj_add in IH. cbn in IH.
  now rewrite IH.
Qed.

Lemma uniqueEvents_keepUnmatched (allEvents : list ScheduleEvent) :
  uniqueEvents allEvents = keepUnmatched [] allEvents.
Proof. apply (filter_from_keepUnmatched allEvents []). Qed.

Lemma strict_equal_refl (v : JS.value) : JS.strict_equal v v = true.
Proof.
  destruct v; cbn; auto using Z.eqb_refl, String.eqb_refl, Nat.eqb_refl.
  now destruct b.
Qed.

Lemma strict_equal_sym (a b : JS.value) :
  JS.strict_equal a b = JS.strict_equal b a.
Proof.
  destruct a as [| | x | x | x | x ? | x ?], b as [| | y | y | y | y ? | y ?];
    cbn; try reflexivity;
    auto using Z.eqb_sym, String.eqb_sym, Nat.eqb_sym.
  now destruct x, y.
Qed.

Lemma sameEvent_sameTriple (e x : ScheduleEvent) :
  hasValidDates e -> sameEvent e x = sameTriple e x.
Proof.
  intros [Hs He]. unfold sameEvent, sameTriple, getTime in *.
  rewrite (strict_equal_sym (title x)).
  destruct (start e) as [s |]; [|discriminate].
  destruct (end_ e) as [n |]; [|discriminate].
  destruct (start x) as [s' |], (end_ x) as [n' |]; cbn;
    rewrite ?(Z.eqb_sym s'), ?(Z.eqb_sym n'), ?andb_false_r; reflexivity.
Qed.

Lemma sameTriple_sym (a b : ScheduleEvent) : sameTriple a b = sameTriple b a.
Proof.
  unfold sameTriple, sameDate.
  rewrite (strict_equal_sym (title a)).
  destruct (start a), (start b), (end_ a), (end_ b);
    rewrite ?(Z.eqb_sym z); try reflexivity.
  now rewrite (Z.eqb_sym z1).
Qed.

Lemma sameEvent_self (e : ScheduleEvent) :
  sameEvent e e = true <-> hasValidDates e.
Proof.
  unfold sameEvent, hasValidDates, getTime. rewrite strict_equal_refl.
  destruct (start e), (end_ e); cbn; rewrite ?Z.eqb_refl; cbn;
    intuition congruence.
Qed.

Lemma existsb_ext {A : Type} (f g : A -> bool) :
  (forall x, f x = g x) -> forall l, existsb f l = existsb g l.
Proof.
  intros H l. induction l as [| x l IH]; cbn; [reflexivity|].
  now rewrite H, IH.
Qed.


(** Every Event kept by the code has valid dates and matches none of the
    Events before it. *)
Lemma keepUnmatched_kept (l : list ScheduleEvent) :
  forall before,
    Forall (fun e => hasValidDates e
                     /\ existsb (sameTriple e) before = false)
           (keepUnmatched before l).
Proof.
  induction l as [| e rest IH]; intros before; cbn [keepUnmatched];
    [constructor|].
  assert (Hrest : Forall (fun e0 => hasValidDates e0
                            /\ existsb (sameTriple e0) before = false)
                         (keepUnmatched (before ++ [e]) rest)).
  { eapply Forall_impl; [| apply (IH (before ++ [e])%list)].
    intros a [Ha Hx]. split; [assumption|].
    rewrite existsb_app in Hx. now apply orb_false_iff in Hx. }
  destruct (negb (existsb (sameEvent e) before) && sameEvent e e) eqn:K;
    [| exact Hrest].
  apply andb_true_iff in K as [K1 K2]. apply sameEvent_self in K2.
  constructor; [| exact Hrest]. split; [assumption|].
  rewrite <- (existsb_ext _ _ (fun x => sameEvent_sameTriple e x K2)).
  now apply negb_true_iff.
Qed.

Lemma keepUnmatched_distinct (l : list ScheduleEvent) :
  forall before,
    ForallOrdPairs (fun a b => sameTriple a b = false)
                   (keepUnmatched before l).
Proof.
  induction l as [| e rest IH]; intros before; cbn [keepUnmatched];
    [constructor|].
  destruct (negb (existsb (sameEvent e) before) && sameEvent e e);
    [| apply IH].
  constructor; [| apply IH].
  eapply Forall_impl; [| apply (keepUnmatched_kept rest (before ++ [e])%list)].
  intros a [_ Hx]. rewrite existsb_app in Hx.
  apply orb_false_iff in Hx as [_ Hx]. cbn in Hx.
  rewrite orb_false_r in Hx. now rewrite sameTriple_sym.
Qed.

Section SortFacts.

Context {A : Type} (cmp : A -> A -> option Z).

Lemma insertSorted_perm (x : A) (l : list A) :
  Permutation (x :: l) (insertSorted cmp x l).
Proof.
  induction l as [| y l IH]; cbn [insertSorted]; [reflexivity|].
  destruct (staysBefore cmp x y); [reflexivity|].
  rewrite perm_swap. now apply perm_skip.
Qed.

Lemma sort_perm (l : list A) : Permutation l (sort cmp l).
Proof.
  induction l as [| x l IH]; cbn; [reflexivity|].
  rewrite <- insertSorted_perm. now apply perm_skip.
Qed.

Lemma sort_Forall (P : A -> Prop) (l : list A) :
  Forall P l -> Forall P (sort cmp l).
Proof.
  intros H. apply Forall_forall. intros x Hx.
  rewrite Forall_forall in H. apply H.
  eapply Permutation_in; [symmetry; apply sort_perm | exact Hx].
Qed.

Lemma insertSorted_pairs (R : A -> A -> Prop) (x : A) (l : list A) :
  (forall a b, R a b -> R b a) ->
  Forall (R x) l -> ForallOrdPairs R l ->
  ForallOrdPairs R (insertSorted cmp x l).
Proof.
  intros Hsym. induction l as [| y l IH]; intros Hx Hl; cbn [insertSorted].
  - constructor; constructor.
  - destruct (staysBefore cmp x y); [now constructor|].
    inversion Hx as [| ? ? Hxy Hxl]; subst.
    inversion Hl as [| ? ? Hyl Hl']; subst.
    constructor; [| now apply IH].
    apply Forall_forall. intros z Hz.
    apply (Permutation_in _ (Permutation_sym (insertSorted_perm x l))) in Hz.
    destruct Hz as [<- | Hz]; [now apply Hsym|].
    rewrite Forall_forall in Hyl. now apply Hyl.
Qed.

Lemma sort_pairs (R : A -> A -> Prop) (l : list A) :
  (forall a b, R a b -> R b a) ->
  ForallOrdPairs R l -> ForallOrdPairs R (sort cmp l).
Proof.
  intros Hsym H. induction H as [| x l Hx Hl IH]; cbn; [constructor|].
  apply insertSorted_pairs; auto. now apply sort_Forall.
Qed.

End SortFacts.

Lemma startLe_trans (a b c : ScheduleEvent) :
  startLe a b -> startLe b c -> startLe a c.
Proof.
  unfold startLe, getTime.
  destruct (start a), (start b), (start c); try tauto; lia.
Qed.

Lemma insertSorted_sorted (x : ScheduleEvent) (l : list ScheduleEvent) :
  hasValidDates x -> Forall hasValidDates l ->
  StronglySorted startLe l ->
  StronglySorted startLe (insertSorted compareStart x l).
Proof.
  intros Hx. induction l as [| y l IH]; intros Hl Hs; cbn [insertSorted].
  - constructor; constructor.
  - inversion Hl as [| ? ? Hy Hl']; subst.
    inversion Hs as [| ? ? Hs' Hyl]; subst.
    assert (Hcmp : if staysBefore compareStart x y
                   then startLe x y else startLe y x).
    { destruct Hx as [Hx _], Hy as [Hy _].
      unfold staysBefore, compareStart, startLe, getTime in *.
      destruct (start x) as [tx |]; [|discriminate].
      destruct (start y) as [ty |]; [|discriminate].
      destruct (Z.leb_spec (tx - ty) 0); lia. }
    destruct (staysBefore compareStart x y).
    + constructor; [assumption|]. constructor; [assumption|].
      eapply Forall_impl; [| exact Hyl].
      intros a Ha. now apply (startLe_trans x y a).
    + constructor; [now apply IH|].
      apply Forall_forall. intros z Hz.
      apply (Permutation_in _
               (Permutation_sym (insertSorted_perm compareStart x l))) in Hz.
      destruct Hz as [<- | Hz]; [assumption|].
      rewrite Forall_forall in Hyl. now apply Hyl.
Qed.

Lemma sort_sorted (l : list ScheduleEvent) :
  Forall hasValidDates l -> StronglySorted startLe (sort compareStart l).
Proof.
  induction 1 as [| x l Hx Hl IH]; cbn; [constructor|].
  apply insertSorted_sorted; auto. now apply sort_Forall.
Qed.





Lemma processImages_gathers LocalTZA Date_parse (images : list reply) :
  forall i allEvents errors,
    fst (processImages LocalTZA Date_parse images i allEvents errors)
    = (allEvents ++ gatheredEvents LocalTZA Date_parse images)%list.
Proof.
  induction images as [| image rest IH]; intros i allEvents errors;
    cbn [processImages gatheredEvents flat_map].
  - now rewrite app_nil_r.
  - destruct (processImage LocalTZA Date_parse image) as [events | msg];
      rewrite IH; [now rewrite <- app_assoc | reflexivity].
Qed.



(* ================================================================== *)
(** * Further properties of the normaliser and the serialiser *)

Lemma string_app_assoc (a b c : string) : (a ++ b) ++ c = a ++ (b ++ c).
Proof. induction a as [| x a IH]; cbn; [reflexivity | now rewrite IH]. Qed.

Lemma string_app_nil_r (a : string) : a ++ "" = a.
Proof. induction a as [| x a IH]; cbn; [reflexivity | now rewrite IH]. Qed.

Lemma get_fieldOf (event : JS.value) (k : string) (v : JS.value) :
  JS.get event k = JS.Normal v -> v = fieldOf event k.
Proof. destruct event; cbn; intros H; now inversion H. Qed.

Lemma tryRecord_makeEvent LocalTZA Date_parse (event : JS.value)
      (ev : ScheduleEvent) :
  tryRecord LocalTZA Date_parse event = JS.Normal (Some ev) ->
  makeEvent event (start ev) (end_ ev) = JS.Normal ev.
Proof.
  unfold tryRecord.
  destruct (JS.get event "start") as [startStr |] eqn:Gs; [|discriminate].
  destruct (JS.get event "end") as [endStr |]; [|discriminate].
  destruct (value_match startStr) as [sm |]; [|discriminate].
  destruct (value_match endStr) as [em |]; [|discriminate].
  assert (K : forall sd ed,
             (if isNaN (getTime sd) || isNaN (getTime ed)
              then JS.Normal None
              else match makeEvent event sd ed with
                   | JS.Normal e => JS.Normal (Some e)
                   | JS.Throw m => JS.Throw m
                   end) = JS.Normal (Some ev) ->
             makeEvent event (start ev) (end_ ev) = JS.Normal ev).
  { intros sd ed H.
    destruct (isNaN (getTime sd) || isNaN (getTime ed)); [discriminate|].
    destruct (makeEvent_total event _ _ sd ed Gs) as (ev' & M & Es & Ee).
    rewrite M in H. injection H as <-. now rewrite Es, Ee. }
  destruct sm, em, startStr, endStr; try discriminate; apply K.
Qed.

Lemma recordEvents_text_fields LocalTZA Date_parse (event : JS.value)
      (ev : ScheduleEvent) :
  recordEvents LocalTZA Date_parse event = [ev] ->
  title ev = (fieldOf event "title" ||| fieldOf event "summary"
              ||| JS.Str "Work Schedule")
  /\ description ev = (fieldOf event "description" ||| JS.Str "")
  /\ location ev = (fieldOf event "location" ||| JS.Str "")
  /\ JS.truthy (title ev) = true.
Proof.
  unfold recordEvents. intros H.
  destruct (tryRecord LocalTZA Date_parse event) as [[ev' |] |] eqn:T;
    try discriminate.
  injection H as ->. apply tryRecord_makeEvent in T.
  unfold makeEvent in T.
  destruct (JS.get event "title") as [t |] eqn:Gt; [|discriminate].
  destruct (JS.get event "summary") as [su |] eqn:Gsu; [|discriminate].
  destruct (JS.get event "description") as [de |] eqn:Gd; [|discriminate].
  destruct (JS.get event "location") as [lo |] eqn:Gl; [|discriminate].
  apply get_fieldOf in Gt, Gsu, Gd, Gl. subst t su de lo.
  injection T as <-. cbn [title description location].
  repeat split.
  unfold JS.or_else.
  destruct (JS.truthy (fieldOf event "title")) eqn:E1; [now rewrite E1|].
  destruct (JS.truthy (fieldOf event "summary")) eqn:E2; [now rewrite E2|].
  reflexivity.
Qed.

(** The Events put out stand one for one, in order, against the valid
    records of the batch, and each Event has the text of its own record: its
    title is the title of that record if that is truthy, else its summary if
    that is truthy, else the words Work Schedule, so it is never empty; its
    description and location are the record's own when truthy and the empty
    string otherwise. *)
Theorem normalised_text_fields
        (LocalTZA : Z -> bool -> Z) (Date_parse : string -> Date)
        (eventsData : list JS.value) :
  Forall2
    (fun event ev =>
       title ev = (fieldOf event "title" ||| fieldOf event "summary"
                   ||| JS.Str "Work Schedule")
       /\ description ev = (fieldOf event "description" ||| JS.Str "")
       /\ location ev = (fieldOf event "location" ||| JS.Str "")
       /\ JS.truthy (title ev) = true)
    (filter (validRecord LocalTZA Date_parse) eventsData)
    (parseEventsFromJSON LocalTZA Date_parse eventsData).
Proof.
  rewrite parseEventsFromJSON_flat_map.
  induction eventsData as [| event rest IH]; [constructor|].
  cbn [filter flat_map].
  destruct (validRecord LocalTZA Date_parse event) eqn:V;
    unfold validRecord in V.
  - destruct (recordEvents_valid _ _ _ V) as (ev & ts & te & E & _).
    rewrite E. cbn [app]. constructor; [| exact IH].
    now apply (recordEvents_text_fields LocalTZA Date_parse).
  - now rewrite (recordEvents_invalid _ _ _ V).
Qed.

Lemma normalised_text_fields_witness :
  Forall2
    (fun event ev =>
       title ev = (fieldOf event "title" ||| fieldOf event "summary"
                   ||| JS.Str "Work Schedule")
       /\ description ev = (fieldOf event "description" ||| JS.Str "")
       /\ location ev = (fieldOf event "location" ||| JS.Str "")
       /\ JS.truthy (title ev) = true)
    (filter (validRecord zoneUTC (isoDateParse zoneUTC))
       [rawRecord 1 "2026-01-10T06:00:00" "2026-01-10T12:00:00" "Morning";
        rawRecord 2 "soon" "2026-01-10T12:00:00" "Unreadable";
        JS.Obj 3 [("start", JS.Str "2026-01-10T15:00:00");
                  ("end", JS.Str "2026-01-10T22:00:00");
                  ("title", JS.Str "");
                  ("summary", JS.Str "Evening")]])
    (parseEventsFromJSON zoneUTC (isoDateParse zoneUTC)
       [rawRecord 1 "2026-01-10T06:00:00" "2026-01-10T12:00:00" "Morning";
        rawRecord 2 "soon" "2026-01-10T12:00:00" "Unreadable";
        JS.Obj 3 [("start", JS.Str "2026-01-10T15:00:00");
                  ("end", JS.Str "2026-01-10T22:00:00");
                  ("title", JS.Str "");
                  ("summary", JS.Str "Evening")]]).
Proof.
  apply (normalised_text_fields zoneUTC (isoDateParse zoneUTC)).
Defined.

(** In the batch above the two Events are titled Morning and Evening, each
    after its own record. *)
Example titles_follow_their_records :
  map title
      (parseEventsFromJSON zoneUTC (isoDateParse zoneUTC)
         [rawRecord 1 "2026-01-10T06:00:00" "2026-01-10T12:00:00" "Morning";
          rawRecord 2 "soon" "2026-01-10T12:00:00" "Unreadable";
          JS.Obj 3 [("start", JS.Str "2026-01-10T15:00:00");
                    ("end", JS.Str "2026-01-10T22:00:00");
                    ("title", JS.Str "");
                    ("summary", JS.Str "Evening")]])
  = [JS.Str "Morning"; JS.Str "Evening"].
Proof. vm_compute. reflexivity. Qed.

Lemma escapeICSValue_of_default (v : JS.value) (default : string) :
  escapeICSValue_of (v ||| JS.Str default)
  = if textual v then JS.Normal (escapeICSValue (textOf v default))
    else JS.Throw "TypeError".
Proof.
  unfold JS.or_else, textual, textOf.
  destruct v as [| | [|] | n | s | loc items | loc fields];
    cbn [JS.truthy negb escapeICSValue_of]; try reflexivity.
  - destruct (n =? 0); reflexivity.
  - destruct (s =? "")%string; reflexivity.
Qed.

Lemma escapeICSValue_empty (s : string) :
  (escapeICSValue s =? "")%string = (s =? "")%string.
Proof.
  destruct s as [| c s]; [reflexivity|].
  rewrite escapeICSValue_cons. unfold escapeChar.
  repeat match goal with
         | |- context [if ?b then _ else _] => destruct b
         end; reflexivity.
Qed.

Lemma crlfLines_app (l1 l2 : list string) :
  crlfLines (l1 ++ l2) = crlfLines l1 ++ crlfLines l2.
Proof.
  unfold crlfLines.
  induction l1 as [| x l1 IH]; cbn [app fold_right]; [reflexivity|].
  now rewrite IH, !string_app_assoc.
Qed.

Lemma eventBlock_serialisable LocalTZA (event : ScheduleEvent) :
  eventBlock LocalTZA event
  = if serialisable event
    then JS.Normal (crlfLines (eventLines LocalTZA event))
    else JS.Throw "TypeError".
Proof.
  unfold eventBlock, serialisable, eventLines.
  rewrite !escapeICSValue_of_default.
  destruct (textual (title event)); [|reflexivity].
  destruct (textual (description event)); [|reflexivity].
  destruct (textual (location event)); [|reflexivity].
  cbn [andb]. f_equal. unfold optionalLine.
  rewrite !escapeICSValue_empty.
  destruct (textOf (description event) "" =? "")%string;
    destruct (textOf (location event) "" =? "")%string;
    cbn [app crlfLines fold_right];
    now rewrite ?string_app_assoc, ?string_app_nil_r.
Qed.

Lemma forEachEvent_lines LocalTZA (events : list ScheduleEvent) :
  forall ics,
    forEachEvent LocalTZA events ics
    = if forallb serialisable events
      then JS.Normal
             (ics ++ crlfLines (flat_map (eventLines LocalTZA) events))
      else JS.Throw "TypeError".
Proof.
  induction events as [| event rest IH]; intros ics;
    cbn [forEachEvent forallb flat_map].
  - cbn. now rewrite string_app_nil_r.
  - rewrite eventBlock_serialisable.
    destruct (serialisable event); cbn [andb]; [|reflexivity].
    rewrite IH. destruct (forallb serialisable rest); [|reflexivity].
    now rewrite crlfLines_app, string_app_assoc.
Qed.

Lemma generateCalendar_lines LocalTZA (events : list ScheduleEvent)
      (format : calendarFormat) :
  generateCalendar LocalTZA events format
  = if forallb serialisable events
    then JS.Normal
           (crlfLines (headerLines ++ flat_map (eventLines LocalTZA) events
                       ++ ["END:VCALENDAR"])%list)
    else JS.Throw "TypeError".
Proof.
  unfold generateCalendar. rewrite forEachEvent_lines.
  destruct (forallb serialisable events); [| reflexivity].
  rewrite !crlfLines_app, string_app_assoc. reflexivity.
Qed.

(** When the title, description and location of every Event are strings or
    falsy, the calendar is the six header lines, then for each Event in
    order its lines (BEGIN, DTSTART, DTEND, SUMMARY, a DESCRIPTION line only
    for a non-empty description, a LOCATION line only for a non-empty
    location, END), then END:VCALENDAR, each line closed by CR LF; a falsy
    title is written as Work Schedule. *)
Theorem calendar_is_its_lines
        (LocalTZA : Z -> bool -> Z) (events : list ScheduleEvent)
        (format : calendarFormat) :
  forallb serialisable events = true ->
  generateCalendar LocalTZA events format
  = JS.Normal
      (crlfLines (headerLines ++ flat_map (eventLines LocalTZA) events
                  ++ ["END:VCALENDAR"])%list).
Proof.
  intros H. now rewrite generateCalendar_lines, H.
Qed.

Lemma calendar_is_its_lines_witness :
  generateCalendar zoneUTC
    [mkEvent (Some 1768057200000) (Some 1768082400000)
             JS.Undefined (JS.Str "7 hours; paid") (JS.Str "")]
    outlook
  = JS.Normal
      (crlfLines
         (headerLines
          ++ flat_map (eventLines zoneUTC)
               [mkEvent (Some 1768057200000) (Some 1768082400000)
                        JS.Undefined (JS.Str "7 hours; paid") (JS.Str "")]
          ++ ["END:VCALENDAR"])%list).
Proof.
  apply (calendar_is_its_lines zoneUTC). reflexivity.
Defined.

(** One Event whose title, description or location is truthy and not a
    string makes the serialiser raise, and the whole request is answered
    with status 500 and the message of the exception, whatever the other
    Events are. *)
Theorem non_text_field_fails_the_request
        (LocalTZA : Z -> bool -> Z) (Date_parse : string -> Date)
        (images : list reply) (format : string) (fmt : calendarFormat) :
  parseFormat format = Some fmt ->
  forallb serialisable
          (finalEvents (gatheredEvents LocalTZA Date_parse images)) = false ->
  exists message,
    generateCalendar LocalTZA
      (finalEvents (gatheredEvents LocalTZA Date_parse images)) fmt
    = JS.Throw message
    /\ POST LocalTZA Date_parse true images format = JsonError 500 message.
Proof.
  intros Hf Hs. exists "TypeError".
  assert (G : generateCalendar LocalTZA
                (finalEvents (gatheredEvents LocalTZA Date_parse images)) fmt
              = JS.Throw "TypeError").
  { now rewrite generateCalendar_lines, Hs. }
  split; [exact G|].
  unfold POST. cbn [negb]. rewrite Hf.
  destruct images as [| image rest]; [discriminate Hs|].
  pose proof (processImages_gathers LocalTZA Date_parse (image :: rest)
                0 [] []) as G0.
  destruct (processImages LocalTZA Date_parse (image :: rest) 0 [] [])
    as [allEvents errors].
  cbn [fst app] in G0. subst allEvents.
  destruct (gatheredEvents LocalTZA Date_parse (image :: rest)) as [| ev evs];
    [discriminate Hs|].
  now rewrite G.
Qed.

Lemma non_text_field_fails_the_request_witness :
  exists message,
    generateCalendar zoneUTC
      (finalEvents
         (gatheredEvents zoneUTC (isoDateParse zoneUTC)
            [Parsed (JS.Arr 1
               [rawRecord 2 "2026-02-01T09:00:00" "2026-02-01T17:00:00"
                          "Shift";
                JS.Obj 3 [("start", JS.Str "2026-02-02T09:00:00");
                          ("end", JS.Str "2026-02-02T17:00:00");
                          ("title", JS.Number 7)]])]))
      apple
    = JS.Throw message
    /\ POST zoneUTC (isoDateParse zoneUTC) true
         [Parsed (JS.Arr 1
            [rawRecord 2 "2026-02-01T09:00:00" "2026-02-01T17:00:00" "Shift";
             JS.Obj 3 [("start", JS.Str "2026-02-02T09:00:00");
                       ("end", JS.Str "2026-02-02T17:00:00");
                       ("title", JS.Number 7)]])]
         "apple"
       = JsonError 500 message.
Proof.
  apply (non_text_field_fails_the_request zoneUTC (isoDateParse zoneUTC)
           _ "apple" apple);
    reflexivity.
Defined.

Lemma escapeICSValue_escaped (value : string) :
  wellEscaped (escapeICSValue value) = true
  /\ countLF (escapeICSValue value) = O.
Proof.
  induction value as [| c s [IHw IHc]]; [split; reflexivity|].
  rewrite escapeICSValue_cons. unfold escapeChar.
  destruct (Ascii.eqb_spec c backslash) as [-> | Hb];
    [cbn; rewrite IHw, IHc; split; reflexivity|].
  destruct (Ascii.eqb_spec c ";") as [-> | Hs];
    [cbn; rewrite IHw, IHc; split; reflexivity|].
  destruct (Ascii.eqb_spec c ",") as [-> | Hc];
    [cbn; rewrite IHw, IHc; split; reflexivity|].
  destruct (Ascii.eqb_spec c LF) as [-> | Hl];
    [cbn; rewrite IHw, IHc; split; reflexivity|].
  apply Ascii.eqb_neq in Hb, Hs, Hc, Hl.
  cbn [append wellEscaped countLF]. rewrite Hb, Hs, Hc, Hl, IHw, IHc.
  split; reflexivity.
Qed.

(** In the escaped form of any string every semicolon, comma and line feed
    of the original is behind a backslash: read from the left the text is
    well escaped, and it holds no line feed at all, so a value can never
    break out of its line. *)
Theorem escaped_text_is_well_escaped (value : string) :
  wellEscaped (escapeICSValue value) = true
  /\ countLF (escapeICSValue value) = O.
Proof. apply escapeICSValue_escaped. Qed.

(** Escaping works piece by piece, never shortens a text and at most
    doubles its length. *)
Theorem escaping_is_piecewise_and_bounded (a b : string) :
  escapeICSValue (a ++ b) = escapeICSValue a ++ escapeICSValue b
  /\ (String.length a <= String.length (escapeICSValue a)
      <= 2 * String.length a)%nat.
Proof.
  split; [apply escapeICSValue_app|].
  induction a as [| c s IH]; [cbn; lia|].
  rewrite escapeICSValue_cons. unfold escapeChar.
  repeat match goal with
         | |- context [if ?x then _ else _] => destruct x
         end; cbn [append String.length]; lia.
Qed.

Lemma digitChar_digitValue (c : ascii) :
  isDigit c = true -> digitChar (digitValue c) = c.
Proof.
  unfold isDigit, digitChar, digitValue. intros H.
  apply andb_true_iff in H as [H1 H2]. apply Nat.leb_le in H1, H2.
  replace (48 + Z.to_nat (Z.of_nat (nat_of_ascii c) - 48))%nat
    with (nat_of_ascii c) by lia.
  apply ascii_nat_embedding.
Qed.

Lemma parseInt_from_digit (c : ascii) (g : string) (acc : Z) :
  isDigit c = true ->
  parseInt_from acc (String c g) = parseInt_from (10 * acc + digitValue c) g.
Proof.
  intros H.
  change (parseInt_from acc (String c g))
    with (if isDigit c then parseInt_from (10 * acc + digitValue c) g
          else acc).
  now rewrite H.
Qed.

Lemma twoDigits_of_group (g : string) (v : Z) :
  allDigits g = true -> String.length g = 2%nat -> parseInt g = Some v ->
  twoDigits v = g.
Proof.
  intros A L P.
  destruct g as [| c1 [| c2 [| c3 g]]]; try discriminate.
  cbn [allDigits] in A. rewrite andb_true_r in A.
  apply andb_true_iff in A as [A1 A2].
  assert (E : parseInt (String c1 (String c2 ""))
              = Some (10 * digitValue c1 + digitValue c2)).
  { unfold parseInt. rewrite A1.
    rewrite !parseInt_from_digit by assumption.
    change (parseInt_from ?a "") with a. f_equal; lia. }
  assert (Ev : v = 10 * digitValue c1 + digitValue c2) by congruence.
  clear P E. subst v.
  pose proof (digitValue_range _ A1). pose proof (digitValue_range _ A2).
  unfold twoDigits.
  replace ((10 * digitValue c1 + digitValue c2) / 10)
    with (digitValue c1) by (Z.div_mod_to_equations; lia).
  replace ((10 * digitValue c1 + digitValue c2) mod 10)
    with (digitValue c2) by (Z.div_mod_to_equations; lia).
  now rewrite !digitChar_digitValue.
Qed.

Lemma fourDigits_of_group (g : string) (v : Z) :
  allDigits g = true -> String.length g = 4%nat -> parseInt g = Some v ->
  fourDigits v = g.
Proof.
  intros A L P.
  destruct g as [| c1 [| c2 [| c3 [| c4 [| c5 g]]]]]; try discriminate.
  cbn [allDigits] in A. rewrite andb_true_r in A.
  apply andb_true_iff in A as [A1 A]. apply andb_true_iff in A as [A2 A].
  apply andb_true_iff in A as [A3 A4].
  assert (E : parseInt (String c1 (String c2 (String c3 (String c4 ""))))
              = Some (1000 * digitValue c1 + 100 * digitValue c2
                      + 10 * digitValue c3 + digitValue c4)).
  { unfold parseInt. rewrite A1.
    rewrite !parseInt_from_digit by assumption.
    change (parseInt_from ?a "") with a. f_equal; lia. }
  assert (Ev : v = 1000 * digitValue c1 + 100 * digitValue c2
                   + 10 * digitValue c3 + digitValue c4) by congruence.
  clear P E.
  pose proof (digitValue_range _ A1). pose proof (digitValue_range _ A2).
  pose proof (digitValue_range _ A3). pose proof (digitValue_range _ A4).
  unfold fourDigits.
  replace (v / 1000) with (digitValue c1)
    by (Z.div_mod_to_equations; lia).
  replace (v / 100 mod 10) with (digitValue c2)
    by (Z.div_mod_to_equations; lia).
  replace (v / 10 mod 10) with (digitValue c3)
    by (Z.div_mod_to_equations; lia).
  replace (v mod 10) with (digitValue c4)
    by (Z.div_mod_to_equations; lia).
  now rewrite !digitChar_digitValue.
Qed.

Lemma matchLocal_groups (s : string) (m : captures) :
  matchLocal s = Some m ->
  (allDigits (cYear m) = true /\ String.length (cYear m) = 4%nat)
  /\ (allDigits (cMonth m) = true /\ String.length (cMonth m) = 2%nat)
  /\ (allDigits (cDay m) = true /\ String.length (cDay m) = 2%nat)
  /\ (allDigits (cHour m) = true /\ String.length (cHour m) = 2%nat)
  /\ (allDigits (cMinute m) = true /\ String.length (cMinute m) = 2%nat)
  /\ (allDigits (cSecond m) = true /\ String.length (cSecond m) = 2%nat).
Proof.
  unfold matchLocal. intros H.
  repeat match type of H with
         | match ?e with Some _ => _ | None => _ end = _ =>
             let E := fresh "E" in
             destruct e eqn:E; [|discriminate]
         end.
  inversion H; subst; clear H.
  repeat match goal with
         | E : matchDigits _ _ = Some _ |- _ =>
             apply matchDigits_spec in E; destruct E as (?A & ?L & _)
         end.
  cbn [cYear cMonth cDay cHour cMinute cSecond]. tauto.
Qed.

(** A start or end that matches the strict pattern, names a moment that
    exists in the calendar in a year from 1000 on and is not skipped by the
    zone comes out of the serialiser as its own digits: the six captured
    groups, with the letter T between date and time. *)
Theorem strict_timestamp_round_trip
        (LocalTZA : Z -> bool -> Z) (s : string) (m : captures) (c : civil) :
  matchLocal s = Some m -> capturedNumbers m = Some c ->
  validCivil c -> 1000 <= c_year c ->
  zoneRegularAt LocalTZA (localTimeValue c) ->
  formatICSDateTime LocalTZA (Date_of_captures LocalTZA m)
  = cYear m ++ cMonth m ++ cDay m ++ "T"
    ++ cHour m ++ cMinute m ++ cSecond m.
Proof.
  intros M C V Y Zr.
  destruct (matchLocal_numbers _ _ M) as (c' & C' & By & _).
  rewrite C in C'. injection C' as <-.
  destruct (Date_of_components_regular LocalTZA c V ltac:(lia) Zr)
    as (t & D & L).
  rewrite (Date_of_captures_numbers LocalTZA m c C), D.
  rewrite (formatICSDateTime_compact LocalTZA (Some t) c
             (wallClock_of_local LocalTZA t c V L) ltac:(lia)).
  destruct (matchLocal_groups _ _ M)
    as ((Ay & Ly) & (Amo & Lmo) & (Ad & Ld) & (Ah & Lh) & (Ami & Lmi)
        & (As & Ls)).
  unfold capturedNumbers in C.
  destruct (parseInt (cYear m)) as [y |] eqn:Py; [|discriminate].
  destruct (parseInt (cMonth m)) as [mo |] eqn:Pmo; [|discriminate].
  destruct (parseInt (cDay m)) as [d |] eqn:Pd; [|discriminate].
  destruct (parseInt (cHour m)) as [h |] eqn:Ph; [|discriminate].
  destruct (parseInt (cMinute m)) as [mi |] eqn:Pmi; [|discriminate].
  destruct (parseInt (cSecond m)) as [se |] eqn:Ps; [|discriminate].
  injection C as <-. unfold compactDateTime.
  cbn [c_year c_month c_day c_hour c_minute c_second].
  now rewrite (fourDigits_of_group _ _ Ay Ly Py),
    (twoDigits_of_group _ _ Amo Lmo Pmo), (twoDigits_of_group _ _ Ad Ld Pd),
    (twoDigits_of_group _ _ Ah Lh Ph), (twoDigits_of_group _ _ Ami Lmi Pmi),
    (twoDigits_of_group _ _ As Ls Ps).
Qed.

Lemma strict_timestamp_round_trip_witness :
  formatICSDateTime zoneEastern
    (Date_of_captures zoneEastern
       (mkCaptures "2026" "07" "04" "09" "30" "00"))
  = "2026" ++ "07" ++ "04" ++ "T" ++ "09" ++ "30" ++ "00".
Proof.
  apply (strict_timestamp_round_trip zoneEastern "2026-07-04T09:30:00-04:00"
           (mkCaptures "2026" "07" "04" "09" "30" "00")
           (mkCivil 2026 7 4 9 30 0));
    try reflexivity;
    try (unfold validCivil; cbn; lia);
    try (cbn; lia);
    (split; vm_compute; [reflexivity | discriminate]).
Defined.

(* ================================================================== *)
(** * Further properties of de-duplication and sort *)

Lemma keepUnmatched_fixed (l : list ScheduleEvent) :
  forall before,
    Forall (fun e => hasValidDates e
                     /\ existsb (sameTriple e) before = false) l ->
    ForallOrdPairs (fun a b => sameTriple a b = false) l ->
    keepUnmatched before l = l.
Proof.
  induction l as [| e rest IH]; intros before Hl Hp; [reflexivity|].
  inversion Hl as [| ? ? [He Hb] Hrest]; subst.
  inversion Hp as [| ? ? Her Hp']; subst.
  cbn [keepUnmatched].
  rewrite (existsb_ext _ _ (fun x => sameEvent_sameTriple e x He)), Hb.
  rewrite (proj2 (sameEvent_self e) He). cbn [negb andb].
  f_equal. apply IH; [| assumption].
  rewrite Forall_forall in *. intros r Hr.
  destruct (Hrest r Hr) as [Hv Hx]. split; [assumption|].
  rewrite existsb_app, Hx. cbn.
  now rewrite orb_false_r, sameTriple_sym, (Her r Hr).
Qed.

Lemma sort_fixed (l : list ScheduleEvent) :
  StronglySorted startLe l -> sort compareStart l = l.
Proof.
  induction 1 as [| x l Hs IH Hx]; [reflexivity|].
  cbn [sort fold_right]. fold (sort compareStart l). rewrite IH.
  destruct l as [| y r]; [reflexivity|]. cbn [insertSorted].
  inversion Hx as [| ? ? Hxy _]; subst.
  unfold staysBefore, compareStart. unfold startLe in Hxy.
  destruct (getTime (start x)), (getTime (start y)); try contradiction.
  now destruct (Z.leb_spec (z - z0) 0); [| lia].
Qed.

(** De-duplicating twice or sorting twice changes nothing: the sequence
    handed to the serialiser is a fixed point of both steps, and of the two
    together. *)
Theorem final_sequence_is_a_fixed_point (allEvents : list ScheduleEvent) :
  uniqueEvents (uniqueEvents allEvents) = uniqueEvents allEvents
  /\ uniqueEvents (finalEvents allEvents) = finalEvents allEvents
  /\ finalEvents (finalEvents allEvents) = finalEvents allEvents.
Proof.
  assert (Hu : uniqueEvents (finalEvents allEvents) = finalEvents allEvents).
  { unfold finalEvents. rewrite (uniqueEvents_keepUnmatched allEvents).
    rewrite uniqueEvents_keepUnmatched. apply keepUnmatched_fixed.
    - apply sort_Forall.
      eapply Forall_impl; [| apply (keepUnmatched_kept allEvents [])].
      intros a [Ha _]. now split.
    - apply sort_pairs; [| apply keepUnmatched_distinct].
      intros a b Hab. now rewrite sameTriple_sym. }
  split; [| split; [exact Hu|]].
  - rewrite (uniqueEvents_keepUnmatched allEvents).
    rewrite uniqueEvents_keepUnmatched. apply keepUnmatched_fixed.
    + eapply Forall_impl; [| apply (keepUnmatched_kept allEvents [])].
      intros a [Ha _]. now split.
    + apply keepUnmatched_distinct.
  - unfold finalEvents at 1. rewrite Hu. apply sort_fixed.
    unfold finalEvents. rewrite uniqueEvents_keepUnmatched.
    apply sort_sorted.
    eapply Forall_impl; [| apply (keepUnmatched_kept allEvents [])].
    now intros a [Ha _].
Qed.

Lemma sameDate_trans (a b c : Date) :
  sameDate a b = true -> sameDate b c = true -> sameDate a c = true.
Proof.
  destruct a, b, c; cbn; try discriminate; try reflexivity.
  rewrite !Z.eqb_eq. congruence.
Qed.

Lemma strict_equal_trans (a b c : JS.value) :
  JS.strict_equal a b = true -> JS.strict_equal b c = true ->
  JS.strict_equal a c = true.
Proof.
  destruct a as [| | x | x | x | x ? | x ?], b as [| | y | y | y | y ? | y ?],
           c as [| | z | z | z | z ? | z ?];
    cbn; try discriminate; try reflexivity.
  - destruct x, y, z; cbn; congruence.
  - rewrite !Z.eqb_eq. congruence.
  - rewrite !String.eqb_eq. congruence.
  - rewrite !Nat.eqb_eq. congruence.
  - rewrite !Nat.eqb_eq. congruence.
Qed.

Lemma sameTriple_trans (a b c : ScheduleEvent) :
  sameTriple a b = true -> sameTriple b c = true -> sameTriple a c = true.
Proof.
  unfold sameTriple. rewrite !andb_true_iff.
  intros [[S1 E1] T1] [[S2 E2] T2].
  repeat split;
    [ exact (sameDate_trans _ _ _ S1 S2)
    | exact (sameDate_trans _ _ _ E1 E2)
    | exact (strict_equal_trans _ _ _ T1 T2) ].
Qed.

Lemma sameTriple_valid (a b : ScheduleEvent) :
  hasValidDates a -> sameTriple a b = true -> hasValidDates b.
Proof.
  unfold hasValidDates, sameTriple, sameDate, getTime.
  intros [Hs He]. rewrite !andb_true_iff. intros [[S E] _].
  destruct (start a), (end_ a), (start b), (end_ b); try discriminate;
    auto.
Qed.

Lemma keepUnmatched_subset (l : list ScheduleEvent) :
  forall before e, In e (keepUnmatched before l) -> In e l.
Proof.
  induction l as [| a rest IH]; intros before e H; [contradiction|].
  cbn [keepUnmatched] in H.
  destruct (negb (existsb (sameEvent a) before) && sameEvent a a).
  - destruct H as [<- | H]; [now left | right; eauto].
  - right; eauto.
Qed.

Lemma keepUnmatched_represents (l : list ScheduleEvent) :
  forall before e,
    In e l -> hasValidDates e ->
    (exists e', In e' (keepUnmatched before l) /\ sameTriple e e' = true)
    \/ (exists x, In x before /\ sameTriple e x = true).
Proof.
  induction l as [| a rest IH]; intros before e Hin Hv; [contradiction|].
  cbn [keepUnmatched].
  assert (Hkeep : forall e',
             In e' (keepUnmatched (before ++ [a]) rest) ->
             In e' (if negb (existsb (sameEvent a) before) && sameEvent a a
                    then a :: keepUnmatched (before ++ [a]) rest
                    else keepUnmatched (before ++ [a]) rest)).
  { intros e' H.
    destruct (negb (existsb (sameEvent a) before) && sameEvent a a);
      [now right | assumption]. }
  assert (Ha : forall x, hasValidDates x -> sameTriple x a = true ->
               (exists e', In e'
                  (if negb (existsb (sameEvent a) before) && sameEvent a a
                   then a :: keepUnmatched (before ++ [a]) rest
                   else keepUnmatched (before ++ [a]) rest)
                  /\ sameTriple x e' = true)
               \/ (exists y, In y before /\ sameTriple x y = true)).
  { intros x Hx Hxa. pose proof (sameTriple_valid _ _ Hx Hxa) as Hva.
    rewrite (proj2 (sameEvent_self a) Hva), andb_true_r.
    rewrite (existsb_ext _ _ (fun y => sameEvent_sameTriple a y Hva)).
    destruct (existsb (sameTriple a) before) eqn:E; cbn [negb].
    - right. apply existsb_exists in E as (y & Hy & Hay).
      exists y. split; [assumption|]. eauto using sameTriple_trans.
    - left. exists a. split; [now left | assumption]. }
  destruct Hin as [<- | Hin].
  - apply Ha; [assumption|].
    unfold sameTriple, sameDate. rewrite strict_equal_refl.
    destruct Hv as [Hs He]. unfold getTime in *.
    destruct (start a), (end_ a); try discriminate.
    now rewrite !Z.eqb_refl.
  - destruct (IH (before ++ [a])%list e Hin Hv)
      as [(e' & He' & Hee') | (x & Hx & Hex)].
    + left. exists e'. split; [now apply Hkeep | assumption].
    + apply in_app_or in Hx as [Hx | [<- | []]].
      * right. eauto.
      * now apply Ha.
Qed.

(** De-duplication invents nothing and loses no triple: every Event it
    keeps is one of the given Events, and every given Event with valid dates
    has its (start, end, title) triple on one of the Events kept. *)
Theorem deduplication_keeps_every_triple
        (allEvents : list ScheduleEvent) (e : ScheduleEvent) :
  (In e (uniqueEvents allEvents) -> In e allEvents)
  /\ (In e allEvents -> hasValidDates e ->
      exists e', In e' (uniqueEvents allEvents) /\ sameTriple e e' = true).
Proof.
  rewrite uniqueEvents_keepUnmatched. split.
  - apply keepUnmatched_subset.
  - intros Hin Hv.
    destruct (keepUnmatched_represents allEvents [] e Hin Hv)
      as [H | (x & [] & _)].
    exact H.
Qed.

Lemma deduplication_keeps_every_triple_witness :
  exists e',
    In e' (uniqueEvents
             [mkEvent (Some 10) (Some 20) (JS.Str "Shift") (JS.Str "a")
                      (JS.Str "");
              mkEvent (Some 10) (Some 20) (JS.Str "Shift") (JS.Str "b")
                      (JS.Str "")])
    /\ sameTriple
         (mkEvent (Some 10) (Some 20) (JS.Str "Shift") (JS.Str "b")
                  (JS.Str ""))
         e' = true.
Proof.
  apply (proj2 (deduplication_keeps_every_triple
                  [mkEvent (Some 10) (Some 20) (JS.Str "Shift") (JS.Str "a")
                           (JS.Str "");
                   mkEvent (Some 10) (Some 20) (JS.Str "Shift") (JS.Str "b")
                           (JS.Str "")]
                  (mkEvent (Some 10) (Some 20) (JS.Str "Shift") (JS.Str "b")
                           (JS.Str "")))).
  - right. left. reflexivity.
  - split; reflexivity.
Defined.

Lemma insertSorted_startingAt (t : Z) (x : ScheduleEvent)
      (l : list ScheduleEvent) :
  hasValidDates x -> Forall hasValidDates l ->
  startingAt t (insertSorted compareStart x l) = startingAt t (x :: l).
Proof.
  intros Hx Hl. induction Hl as [| y r Hy Hr IH]; [reflexivity|].
  cbn [insertSorted].
  destruct (staysBefore compareStart x y) eqn:S; [reflexivity|].
  unfold startingAt in *. cbn [filter] in *. rewrite IH.
  destruct Hx as [Hx _], Hy as [Hy _].
  unfold staysBefore, compareStart, getTime in *.
  destruct (start x) as [tx |]; [|discriminate].
  destruct (start y) as [ty |]; [|discriminate].
  apply Z.leb_gt in S. cbn [sameDate].
  destruct (Z.eqb_spec tx t), (Z.eqb_spec ty t); try reflexivity. lia.
Qed.

Lemma sort_startingAt (t : Z) (l : list ScheduleEvent) :
  Forall hasValidDates l ->
  startingAt t (sort compareStart l) = startingAt t l.
Proof.
  induction 1 as [| x l Hx Hl IH]; [reflexivity|].
  cbn [sort fold_right]. fold (sort compareStart l).
  rewrite insertSorted_startingAt by (auto using sort_Forall).
  unfold startingAt in *. cbn [filter]. now rewrite IH.
Qed.

(** The sort does not reorder ties: the Events that start at one and the
    same instant stand in the final sequence in the order in which the
    de-duplication left them, that is, in arrival order. *)
Theorem ties_keep_arrival_order (allEvents : list ScheduleEvent) (t : Z) :
  startingAt t (finalEvents allEvents)
  = startingAt t (uniqueEvents allEvents).
Proof.
  unfold finalEvents. apply sort_startingAt.
  rewrite uniqueEvents_keepUnmatched.
  eapply Forall_impl; [| apply (keepUnmatched_kept allEvents [])].
  now intros a [Ha _].
Qed.

(* ================================================================== *)
(** * Further properties of POST *)

Lemma processImages_errors LocalTZA Date_parse (images : list reply) :
  forall i allEvents errors,
    snd (processImages LocalTZA Date_parse images i allEvents errors)
    = (errors ++ imageErrors LocalTZA Date_parse i images)%list.
Proof.
  induction images as [| image rest IH]; intros i allEvents errors;
    cbn [processImages imageErrors].
  - now rewrite app_nil_r.
  - destruct (processImage LocalTZA Date_parse image) as [events | msg];
      rewrite IH; [reflexivity | now rewrite <- app_assoc].
Qed.

Lemma imageErrors_length LocalTZA Date_parse (images : list reply) :
  forall i,
    List.length (imageErrors LocalTZA Date_parse i images)
    = List.length
        (filter (fun image => negb (succeeded LocalTZA Date_parse image))
                images).
Proof.
  induction images as [| image rest IH]; intros i; [reflexivity|].
  cbn [imageErrors filter]. unfold succeeded at 1.
  destruct (processImage LocalTZA Date_parse image); cbn [negb List.length];
    now rewrite IH.
Qed.

Lemma imageErrors_nth LocalTZA Date_parse (images : list reply) :
  forall i k image message,
    nth_error images k = Some image ->
    processImage LocalTZA Date_parse image = JS.Throw message ->
    In (imageError (i + Z.of_nat k) message)
       (imageErrors LocalTZA Date_parse i images).
Proof.
  induction images as [| a rest IH]; intros i k image message Hn Hp;
    [destruct k; discriminate|].
  destruct k as [| k]; cbn [nth_error] in Hn.
  - injection Hn as ->. cbn [imageErrors]. rewrite Hp.
    left. f_equal. lia.
  - specialize (IH (i + 1) k image message Hn Hp).
    replace (i + 1 + Z.of_nat k) with (i + Z.of_nat (S k)) in IH by lia.
    cbn [imageErrors].
    destruct (processImage LocalTZA Date_parse a); [assumption | now right].
Qed.

(** Each image whose processing raised is reported once in [errors], under
    its position counted from 1 and with the message raised; images that
    were processed leave no entry. *)
Theorem failing_images_are_reported_by_position
        (LocalTZA : Z -> bool -> Z) (Date_parse : string -> Date)
        (images : list reply) :
  List.length (snd (processImages LocalTZA Date_parse images 0 [] []))
  = List.length
      (filter (fun image => negb (succeeded LocalTZA Date_parse image))
              images)
  /\ forall k image message,
       nth_error images k = Some image ->
       processImage LocalTZA Date_parse image = JS.Throw message ->
       In ("Image " ++ Number_toString (Some (Z.of_nat k + 1)) ++ ": "
           ++ message)
          (snd (processImages LocalTZA Date_parse images 0 [] [])).
Proof.
  rewrite processImages_errors. cbn [app]. split.
  - apply imageErrors_length.
  - intros k image message Hn Hp.
    apply (imageErrors_nth LocalTZA Date_parse images 0 k image message Hn Hp).
Qed.

Lemma failing_images_are_reported_by_position_witness :
  In ("Image " ++ Number_toString (Some (Z.of_nat 1 + 1)) ++ ": "
      ++ "Failed to parse AI response")
     (snd (processImages zoneUTC (isoDateParse zoneUTC)
             [Parsed (JS.Arr 1 []); NotJSON] 0 [] [])).
Proof.
  apply (proj2 (failing_images_are_reported_by_position
                  zoneUTC (isoDateParse zoneUTC)
                  [Parsed (JS.Arr 1 []); NotJSON])
           1%nat NotJSON "Failed to parse AI response");
    reflexivity.
Defined.

Lemma gatheredEvents_succeeded LocalTZA Date_parse (images : list reply) :
  gatheredEvents LocalTZA Date_parse
    (filter (succeeded LocalTZA Date_parse) images)
  = gatheredEvents LocalTZA Date_parse images.
Proof.
  unfold gatheredEvents.
  induction images as [| image rest IH]; [reflexivity|].
  cbn [filter flat_map]. unfold succeeded at 1.
  destruct (processImage LocalTZA Date_parse image) as [events | msg] eqn:P.
  - cbn [flat_map]. now rewrite P, IH.
  - exact IH.
Qed.

Lemma POST_with_events LocalTZA Date_parse (images : list reply)
      (format : string) :
  gatheredEvents LocalTZA Date_parse images <> [] ->
  POST LocalTZA Date_parse true images format
  = match parseFormat format with
    | None =>
        JsonError 400
          ("Invalid format. Must be " ++ quoted "outlook" ++ " or "
           ++ quoted "apple")
    | Some fmt =>
        match generateCalendar LocalTZA
                (finalEvents (gatheredEvents LocalTZA Date_parse images)) fmt
        with
        | JS.Normal calendarContent => CalendarFile calendarContent
        | JS.Throw message => JsonError 500 message
        end
    end.
Proof.
  intros H. unfold POST. cbn [negb].
  destruct images as [| image rest]; [now contradiction H|].
  destruct (parseFormat format) as [fmt |]; [|reflexivity].
  pose proof (processImages_gathers LocalTZA Date_parse (image :: rest)
                0 [] []) as G0.
  destruct (processImages LocalTZA Date_parse (image :: rest) 0 [] [])
    as [allEvents errors].
  cbn [fst app] in G0. subst allEvents.
  destruct (gatheredEvents LocalTZA Date_parse (image :: rest));
    [now contradiction H | reflexivity].
Qed.

(** As soon as one image yields an Event, the images whose processing
    raised play no part: the response is the one the request would get
    without them. *)
Theorem failing_images_do_not_affect_the_calendar
        (LocalTZA : Z -> bool -> Z) (Date_parse : string -> Date)
        (apiKey : bool) (images : list reply) (format : string) :
  gatheredEvents LocalTZA Date_parse images <> [] ->
  POST LocalTZA Date_parse apiKey images format
  = POST LocalTZA Date_parse apiKey
         (filter (succeeded LocalTZA Date_parse) images) format.
Proof.
  intros H. destruct apiKey; [|reflexivity].
  rewrite !POST_with_events;
    rewrite ?gatheredEvents_succeeded; auto.
Qed.

Lemma failing_images_do_not_affect_the_calendar_witness :
  POST zoneUTC (isoDateParse zoneUTC) true
       [NoContent;
        Parsed (JS.Arr 1 [rawRecord 2 "2026-02-01T09:00:00"
                                    "2026-02-01T17:00:00" "Shift"]);
        Parsed JS.Null]
       "outlook"
  = POST zoneUTC (isoDateParse zoneUTC) true
         (filter (succeeded zoneUTC (isoDateParse zoneUTC))
            [NoContent;
             Parsed (JS.Arr 1 [rawRecord 2 "2026-02-01T09:00:00"
                                         "2026-02-01T17:00:00" "Shift"]);
             Parsed JS.Null])
         "outlook".
Proof.
  apply (failing_images_do_not_affect_the_calendar
           zoneUTC (isoDateParse zoneUTC)).
  vm_compute. discriminate.
Defined.

(** POST returns a calendar exactly when the API key is configured, the
    format field is one of the two names, written just so, some image
    yields an Event, and the serialiser does not raise; the calendar is
    then the serialisation of the final sequence. *)
Theorem calendar_is_returned_exactly_when
        (LocalTZA : Z -> bool -> Z) (Date_parse : string -> Date)
        (apiKey : bool) (images : list reply) (format content : string) :
  POST LocalTZA Date_parse apiKey images format = CalendarFile content
  <-> apiKey = true
      /\ (format = "outlook" \/ format = "apple")
      /\ gatheredEvents LocalTZA Date_parse images <> []
      /\ generateCalendar LocalTZA
           (finalEvents (gatheredEvents LocalTZA Date_parse images)) outlook
         = JS.Normal content.
Proof.
  split.
  - intros H. destruct apiKey; [|discriminate H].
    split; [reflexivity|].
    destruct (gatheredEvents LocalTZA Date_parse images) as [| ev evs] eqn:G.
    + exfalso. unfold POST in H. cbn [negb] in H.
      destruct images as [| image rest]; [discriminate|].
      destruct (parseFormat format); [|discriminate].
      pose proof (processImages_gathers LocalTZA Date_parse (image :: rest)
                    0 [] []) as G0.
      destruct (processImages LocalTZA Date_parse (image :: rest) 0 [] [])
        as [allEvents errors].
      cbn [fst app] in G0. rewrite G in G0. subst allEvents. discriminate.
    + rewrite POST_with_events in H by (rewrite G; discriminate).
      rewrite G in H. unfold parseFormat in H.
      destruct (String.eqb_spec format "outlook") as [-> | Ho].
      * split; [now left|]. split; [discriminate|].
        destruct (generateCalendar LocalTZA (finalEvents (ev :: evs)) outlook);
          now inversion H.
      * destruct (String.eqb_spec format "apple") as [-> | Ha];
          [|discriminate].
        split; [now right|]. split; [discriminate|].
        change (generateCalendar LocalTZA (finalEvents (ev :: evs)) outlook)
          with (generateCalendar LocalTZA (finalEvents (ev :: evs)) apple).
        destruct (generateCalendar LocalTZA (finalEvents (ev :: evs)) apple);
          now inversion H.
  - intros (-> & Hf & Hg & Hc). rewrite POST_with_events by assumption.
    destruct Hf as [-> | ->]; cbn [parseFormat String.eqb Ascii.eqb Bool.eqb];
      [now rewrite Hc|].
    change (generateCalendar LocalTZA
              (finalEvents (gatheredEvents LocalTZA Date_parse images)) apple)
      with (generateCalendar LocalTZA
              (finalEvents (gatheredEvents LocalTZA Date_parse images))
              outlook).
    now rewrite Hc.
Qed.

Lemma calendar_is_returned_exactly_when_witness :
  POST zoneUTC (isoDateParse zoneUTC) true
       [Parsed (JS.Arr 1 [rawRecord 2 "2026-02-01T09:00:00"
                                    "2026-02-01T17:00:00" "Shift"])]
       "apple"
  = CalendarFile
      (crlfLines
         (headerLines
          ++ ["BEGIN:VEVENT"; "DTSTART:20260201T090000";
              "DTEND:20260201T170000"; "SUMMARY:Shift"; "END:VEVENT"]
          ++ ["END:VCALENDAR"])%list).
Proof.
  apply (proj2 (calendar_is_returned_exactly_when
                  zoneUTC (isoDateParse zoneUTC) true _ "apple" _)).
  split; [reflexivity|]. split; [now right|].
  split; [vm_compute; discriminate | vm_compute; reflexivity].
Defined.

(** When the key is configured, the format is recognised and there is at
    least one image, but no image yields an Event, the answer is 400: with
    the message that no events were found if every image was processed, and
    otherwise with the list of the errors of the images that raised. *)
Theorem no_events_is_a_client_error
        (LocalTZA : Z -> bool -> Z) (Date_parse : string -> Date)
        (images : list reply) (format : string) (fmt : calendarFormat) :
  images <> [] -> parseFormat format = Some fmt ->
  gatheredEvents LocalTZA Date_parse images = [] ->
  POST LocalTZA Date_parse true images format
  = JsonError 400
      (if forallb (succeeded LocalTZA Date_parse) images
       then "No schedule events found in any of the images. Please ensure the images are clear and contain readable work schedules."
       else "Failed to extract events from images. "
            ++ join " "
                 (snd (processImages LocalTZA Date_parse images 0 [] []))).
Proof.
  intros Hi Hf Hg. unfold POST. cbn [negb]. rewrite Hf.
  destruct images as [| image rest]; [now contradiction Hi|].
  pose proof (processImages_gathers LocalTZA Date_parse (image :: rest)
                0 [] []) as G0.
  pose proof (processImages_errors LocalTZA Date_parse (image :: rest)
                0 [] []) as E0.
  pose proof (imageErrors_length LocalTZA Date_parse (image :: rest) 0) as L.
  destruct (processImages LocalTZA Date_parse (image :: rest) 0 [] [])
    as [allEvents errors].
  cbn [fst snd app] in *. rewrite Hg in G0. subst allEvents errors.
  f_equal.
  destruct (forallb (succeeded LocalTZA Date_parse) (image :: rest)) eqn:F.
  - assert (N : filter (fun i => negb (succeeded LocalTZA Date_parse i))
                       (image :: rest) = []).
    { clear - F. induction (image :: rest) as [| a l IH]; [reflexivity|].
      cbn in F |- *. apply andb_true_iff in F as [-> F]. now apply IH. }
    rewrite N in L.
    now destruct (imageErrors LocalTZA Date_parse 0 (image :: rest)).
  - destruct (imageErrors LocalTZA Date_parse 0 (image :: rest)) eqn:E;
      [| reflexivity].
    exfalso. cbn [List.length] in L. symmetry in L.
    apply length_zero_iff_nil in L.
    clear - F L. induction (image :: rest) as [| a l IH]; [discriminate|].
    cbn in F, L. destruct (succeeded LocalTZA Date_parse a); cbn in *;
      [now apply IH | discriminate].
Qed.

Lemma no_events_is_a_client_error_witness :
  POST zoneUTC (isoDateParse zoneUTC) true
       [Parsed (JS.Arr 1 []); NotJSON] "apple"
  = JsonError 400
      (if forallb (succeeded zoneUTC (isoDateParse zoneUTC))
                  [Parsed (JS.Arr 1 []); NotJSON]
       then "No schedule events found in any of the images. Please ensure the images are clear and contain readable work schedules."
       else "Failed to extract events from images. "
            ++ join " "
                 (snd (processImages zoneUTC (isoDateParse zoneUTC)
                         [Parsed (JS.Arr 1 []); NotJSON] 0 [] []))).
Proof.
  apply (no_events_is_a_client_error zoneUTC (isoDateParse zoneUTC)
           [Parsed (JS.Arr 1 []); NotJSON] "apple" apple);
    [discriminate | reflexivity | reflexivity].
Defined.

(* ================================================================== *)
(** * Properties of the page *)

Lemma removeAt_Forall {A : Type} (P : A -> Prop) (l : list A) :
  forall k, Forall P l -> Forall P (Page.removeAt k l).
Proof.
  induction l as [| x l IH]; intros k H; [destruct k; constructor|].
  inversion H; subst. destruct k; cbn [Page.removeAt]; auto.
Qed.

Lemma Forall_filter_keep {A : Type} (P : A -> Prop) (f : A -> bool)
      (l : list A) :
  Forall P l -> Forall P (filter f l).
Proof.
  induction 1 as [| x l Hx Hl IH]; cbn [filter]; [constructor|].
  destruct (f x); auto.
Qed.

Lemma Forall_filter_true {A : Type} (f : A -> bool) (l : list A) :
  Forall (fun x => f x = true) (filter f l).
Proof.
  induction l as [| x l IH]; cbn [filter]; [constructor|].
  destruct (f x) eqn:E; auto.
Qed.

Lemma perform_invariant (parseInt : string -> option Z)
      (st : Page.state) (a : Page.action) :
  pageInvariant st -> pageInvariant (Page.perform parseInt st a).
Proof.
  intros (Hs & Hr & Hw). unfold pageInvariant.
  destruct a as [files | k result now random | id' | | f | m | c | value];
    cbn [Page.perform].
  - unfold Page.handleFilesSelect.
    pose proof (Forall_filter_true Page.isImage files) as Hf.
    destruct (filter Page.isImage files) as [| x l];
      cbn [Page.selectedFiles Page.reading Page.repeatWeeks];
      repeat split; auto; try lia.
    apply Forall_app. now split.
  - unfold Page.onloadend.
    destruct (nth_error (Page.reading st) k) as [f |] eqn:E;
      [| repeat split; auto; lia].
    cbn [Page.selectedFiles Page.reading Page.repeatWeeks].
    repeat split; try lia.
    + apply Forall_app. split; [assumption|]. constructor; [| constructor].
      cbn [Page.file]. rewrite Forall_forall in Hr.
      apply Hr. eapply nth_error_In; eassumption.
    + now apply removeAt_Forall.
  - cbn [Page.handleRemoveFile Page.selectedFiles Page.reading
           Page.repeatWeeks].
    repeat split; auto; try lia. now apply Forall_filter_keep.
  - cbn. repeat split; auto; lia.
  - cbn. repeat split; auto; lia.
  - destruct m; cbn; repeat split; auto; lia.
  - cbn. repeat split; auto; lia.
  - unfold Page.onRepeatWeeksChange.
    destruct (parseInt value) as [v |]; [| repeat split; auto; lia].
    destruct (0 <? v); cbn [Page.selectedFiles Page.reading Page.repeatWeeks];
      repeat split; auto; lia.
Qed.

Lemma after_invariant (parseInt : string -> option Z)
      (actions : list Page.action) :
  pageInvariant (Page.after parseInt actions).
Proof.
  unfold Page.after.
  assert (H : pageInvariant Page.initial).
  { unfold pageInvariant. cbn. repeat split; try constructor; lia. }
  revert H. generalize Page.initial.
  induction actions as [| a rest IH]; intros st H; cbn [fold_left];
    [assumption|].
  apply IH. now apply perform_invariant.
Qed.

(** Whatever files are offered, dropped, loaded, removed or cleared, and in
    whatever order the readers finish, the page only ever holds files whose
    type starts with image/, among those selected and among those still
    being read. *)
Theorem page_holds_only_images
        (parseInt : string -> option Z) (actions : list Page.action) :
  Forall (fun f => Page.isImage (Page.file f) = true)
         (Page.selectedFiles (Page.after parseInt actions))
  /\ Forall (fun f => Page.isImage f = true)
            (Page.reading (Page.after parseInt actions)).
Proof.
  destruct (after_invariant parseInt actions) as (Hs & Hr & _). now split.
Qed.

(** Whatever is typed into the number-of-weeks field, and whatever the
    engine's parseInt makes of it, the number of weeks stays between 1 and
    52. *)
Theorem repeat_weeks_stay_within_bounds
        (parseInt : string -> option Z) (actions : list Page.action) :
  1 <= Page.repeatWeeks (Page.after parseInt actions) <= 52.
Proof. now destruct (after_invariant parseInt actions) as (_ & _ & Hw). Qed.

(** Every request the page sends carries at least one file, only image
    files, and the selected format under a name the route recognises; so
    when the route, with its key configured, answers such a request with
    status 400, whatever the model replied, it is because no image yielded
    an Event, never because of the shape of the request. *)
Theorem page_requests_are_well_formed
        (LocalTZA : Z -> bool -> Z) (Date_parse : string -> Date)
        (parseInt : string -> option Z) (actions : list Page.action)
        (req : Page.request) :
  snd (Page.handleConvert (Page.after parseInt actions)) = Some req ->
  Page.images req <> []
  /\ Forall (fun f => Page.isImage f = true) (Page.images req)
  /\ parseFormat (Page.formatField req)
     = Some (Page.format (Page.after parseInt actions))
  /\ forall replies message,
       POST LocalTZA Date_parse true replies (Page.formatField req)
       = JsonError 400 message ->
       gatheredEvents LocalTZA Date_parse replies = [].
Proof.
  intros H. pose proof (after_invariant parseInt actions) as (Hs & _ & _).
  unfold Page.handleConvert in H.
  destruct (Page.selectedFiles (Page.after parseInt actions))
    as [| f fs] eqn:E; [discriminate|].
  cbn [snd] in H. injection H as <-.
  cbn [Page.images Page.formatField].
  assert (Hf : parseFormat
                 (Page.formatName (Page.format (Page.after parseInt actions)))
               = Some (Page.format (Page.after parseInt actions))).
  { now destruct (Page.format (Page.after parseInt actions)). }
  split; [discriminate|]. split; [| split; [exact Hf|]].
  - apply (proj2 (Forall_map Page.file
                     (fun f => Page.isImage f = true) (f :: fs))).
    exact Hs.
  - intros replies message Hp.
    destruct (gatheredEvents LocalTZA Date_parse replies) as [| ev evs] eqn:G;
      [reflexivity | exfalso].
    rewrite POST_with_events in Hp by (rewrite G; discriminate).
    rewrite Hf in Hp.
    destruct (generateCalendar LocalTZA
                (finalEvents (gatheredEvents LocalTZA Date_parse replies))
                (Page.format (Page.after parseInt actions)));
      discriminate.
Qed.

Lemma page_requests_are_well_formed_witness :
  Page.images
    (Page.mkRequest [Page.mkFile "week.png" "image/png"] "apple" [])
  <> []
  /\ Forall (fun f => Page.isImage f = true)
            (Page.images
               (Page.mkRequest [Page.mkFile "week.png" "image/png"]
                               "apple" []))
  /\ parseFormat
       (Page.formatField
          (Page.mkRequest [Page.mkFile "week.png" "image/png"] "apple" []))
     = Some
         (Page.format
            (Page.after parseInt
               [Page.FilesSelect [Page.mkFile "notes.txt" "text/plain";
                                  Page.mkFile "week.png" "image/png"];
                Page.LoadEnd 0 "data:image/png;base64,AAAA" "1" "0.5"]))
  /\ forall replies message,
       POST zoneUTC (isoDateParse zoneUTC) true replies
            (Page.formatField
               (Page.mkRequest [Page.mkFile "week.png" "image/png"]
                               "apple" []))
       = JsonError 400 message ->
       gatheredEvents zoneUTC (isoDateParse zoneUTC) replies = [].
Proof.
  apply (page_requests_are_well_formed zoneUTC (isoDateParse zoneUTC)
           parseInt
           [Page.FilesSelect [Page.mkFile "notes.txt" "text/plain";
                              Page.mkFile "week.png" "image/png"];
            Page.LoadEnd 0 "data:image/png;base64,AAAA" "1" "0.5"]).
  reflexivity.
Defined.

(* ================================================================== *)
(** * The earlier normaliser against the present one *)

Lemma legacy_tryRecord_agrees
      (LocalTZA : Z -> bool -> Z) (Date_parse : string -> Date)
      (Date_of_other : JS.value -> JS.completion Date)
      (event : JS.value) (s e : string) :
  JS.get event "start" = JS.Normal (JS.Str s) ->
  JS.get event "end" = JS.Normal (JS.Str e) ->
  matchLocal s = None \/ matchLocal e = None ->
  Legacy.tryRecord Date_parse Date_of_other event
  = tryRecord LocalTZA Date_parse event.
Proof.
  intros Gs Ge Hm. unfold Legacy.tryRecord, tryRecord.
  rewrite Gs, Ge. cbn [Legacy.Date_of_value value_match].
  destruct Hm as [-> | Hm].
  - reflexivity.
  - rewrite Hm. now destruct (matchLocal s).
Qed.

Lemma legacy_parseLoop_agrees
      (LocalTZA : Z -> bool -> Z) (Date_parse : string -> Date)
      (Date_of_other : JS.value -> JS.completion Date)
      (eventsData : list JS.value) :
  Forall (fun event => looselyDated event = true) eventsData ->
  forall events,
    Legacy.parseLoop Date_parse Date_of_other eventsData events
    = parseLoop LocalTZA Date_parse eventsData events.
Proof.
  induction 1 as [| event rest He Hr IH]; intros events; [reflexivity|].
  cbn [Legacy.parseLoop parseLoop].
  assert (T : Legacy.tryRecord Date_parse Date_of_other event
              = tryRecord LocalTZA Date_parse event).
  { unfold looselyDated in He.
    destruct (JS.get event "start") as [[| | | | s | |] |] eqn:Gs;
      try discriminate.
    destruct (JS.get event "end") as [[| | | | e | |] |] eqn:Ge;
      try discriminate.
    apply (legacy_tryRecord_agrees LocalTZA Date_parse Date_of_other
             event s e Gs Ge).
    destruct (matchLocal s); [| now left].
    destruct (matchLocal e); [discriminate | now right]. }
  rewrite T.
  destruct (tryRecord LocalTZA Date_parse event) as [[ev |] |]; apply IH.
Qed.

(** On a batch in which every record has a string for start and for end
    and the two do not both match the strict pattern, the present
    normaliser gives exactly what the earlier one gave: the strict
    reading is the only thing the rewrite changed for such input. *)
Theorem rewrite_changes_strict_records_only
        (LocalTZA : Z -> bool -> Z) (Date_parse : string -> Date)
        (Date_of_other : JS.value -> JS.completion Date)
        (eventsData : list JS.value) :
  Forall (fun event => looselyDated event = true) eventsData ->
  parseEventsFromJSON LocalTZA Date_parse eventsData
  = Legacy.parseEventsFromJSON Date_parse Date_of_other eventsData.
Proof.
  intros H. unfold parseEventsFromJSON, Legacy.parseEventsFromJSON.
  symmetry. now apply legacy_parseLoop_agrees.
Qed.

Lemma rewrite_changes_strict_records_only_witness :
  parseEventsFromJSON zoneEastern (isoDateParse zoneEastern)
    [rawRecord 1 "2026-01-10" "2026-01-10T22:00:00" "Coverage"]
  = Legacy.parseEventsFromJSON (isoDateParse zoneEastern)
      (fun _ => JS.Normal None)
      [rawRecord 1 "2026-01-10" "2026-01-10T22:00:00" "Coverage"].
Proof.
  apply (rewrite_changes_strict_records_only zoneEastern
           (isoDateParse zoneEastern) (fun _ => JS.Normal None)).
  repeat constructor.
Defined.

(* ================================================================== *)
(** * The number of lines of a calendar *)

Lemma countLF_app (a b : string) :
  countLF (a ++ b) = (countLF a + countLF b)%nat.
Proof.
  induction a as [| c a IH]; cbn [append countLF]; [reflexivity|].
  rewrite IH. lia.
Qed.

Lemma crlfLines_countLF (lines : list string) :
  Forall (fun line => countLF line = O) lines ->
  countLF (crlfLines lines) = List.length lines.
Proof.
  unfold crlfLines.
  induction 1 as [| line rest Hl Hr IH]; [reflexivity|].
  cbn [fold_right List.length]. rewrite !countLF_app, Hl, IH. reflexivity.
Qed.

Lemma digitChar_not_LF (n : Z) : Ascii.eqb (digitChar (n mod 10)) LF = false.
Proof.
  assert (H : 0 <= n mod 10 < 10) by (apply Z.mod_pos_bound; lia).
  unfold digitChar.
  assert (K : exists k, (k < 10)%nat /\ Z.to_nat (n mod 10) = k).
  { exists (Z.to_nat (n mod 10)). split; [lia | reflexivity]. }
  destruct K as (k & Hk & ->).
  do 10 (destruct k as [| k]; [reflexivity|]). lia.
Qed.

Lemma decimal_fuel_countLF (fuel : nat) :
  forall n acc, countLF (decimal_fuel fuel n acc) = countLF acc.
Proof.
  induction fuel as [| fuel IH]; intros n acc; cbn [decimal_fuel].
  - cbn [countLF]. now rewrite digitChar_not_LF.
  - destruct (n <? 10); [| rewrite IH]; cbn [countLF];
      now rewrite digitChar_not_LF.
Qed.

Lemma Number_toString_countLF (x : option Z) :
  countLF (Number_toString x) = O.
Proof.
  destruct x as [n |]; [| reflexivity]. unfold Number_toString, decimal.
  destruct (n <? 0); cbn [countLF]; now rewrite decimal_fuel_countLF.
Qed.

Lemma padStart_countLF (s : string) (n : nat) :
  countLF (padStart s n "0") = countLF s.
Proof.
  unfold padStart. rewrite countLF_app.
  induction (n - String.length s)%nat as [| k IH]; [reflexivity|].
  exact IH.
Qed.

Lemma formatICSDateTime_countLF LocalTZA (date : Date) :
  countLF (formatICSDateTime LocalTZA date) = O.
Proof.
  unfold formatICSDateTime.
  rewrite !countLF_app, !padStart_countLF, !Number_toString_countLF.
  reflexivity.
Qed.

Lemma eventLines_countLF LocalTZA (event : ScheduleEvent) :
  Forall (fun line => countLF line = O) (eventLines LocalTZA event).
Proof.
  unfold eventLines, optionalLine.
  repeat first
         [ apply Forall_app; split
         | apply Forall_cons
         | apply Forall_nil
         | match goal with
           | |- Forall _ (if ?b then _ else _) => destruct b
           end ];
    rewrite ?countLF_app, ?formatICSDateTime_countLF,
      ?(proj2 (escapeICSValue_escaped _)); reflexivity.
Qed.

(** No title, description or location can add a line to the calendar or
    take one away: when the serialiser succeeds, the text has seven lines
    for the envelope and, for each Event, five lines plus one for a
    non-empty description and one for a non-empty location. *)
Theorem calendar_line_count
        (LocalTZA : Z -> bool -> Z) (events : list ScheduleEvent)
        (format : calendarFormat) (text : string) :
  generateCalendar LocalTZA events format = JS.Normal text ->
  countLF text
  = (7 + List.length (flat_map (eventLines LocalTZA) events))%nat
  /\ forall event,
       List.length (eventLines LocalTZA event)
       = (5 + (if (textOf (description event) "" =? "")%string then 0 else 1)
          + (if (textOf (location event) "" =? "")%string then 0 else 1))%nat.
Proof.
  intros H. split.
  - rewrite generateCalendar_lines in H.
    destruct (forallb serialisable events); [| discriminate].
    assert (E : text = crlfLines
                         (headerLines ++ flat_map (eventLines LocalTZA) events
                          ++ ["END:VCALENDAR"])%list) by congruence.
    rewrite E, crlfLines_countLF.
    + rewrite !length_app. cbn [List.length headerLines]. lia.
    + apply Forall_app. split; [repeat constructor|].
      apply Forall_app. split; [| repeat constructor].
      apply Forall_flat_map, Forall_forall. intros e _.
      apply eventLines_countLF.
  - intros event. unfold eventLines, optionalLine.
    destruct (textOf (description event) "" =? "")%string;
      destruct (textOf (location event) "" =? "")%string; reflexivity.
Qed.

Lemma calendar_line_count_witness :
  countLF
    (crlfLines
       (headerLines
        ++ flat_map (eventLines zoneUTC)
             [mkEvent (Some 1768057200000) (Some 1768082400000)
                      (JS.Str (String "a" (String LF "b")))
                      (JS.Str "7 hours; paid") (JS.Str "")]
        ++ ["END:VCALENDAR"])%list)
  = Nat.add 7
      (List.length
         (flat_map (eventLines zoneUTC)
            [mkEvent (Some 1768057200000) (Some 1768082400000)
                     (JS.Str (String "a" (String LF "b")))
                     (JS.Str "7 hours; paid") (JS.Str "")])).
Proof.
  apply (proj1 (calendar_line_count zoneUTC
                  [mkEvent (Some 1768057200000) (Some 1768082400000)
                           (JS.Str (String "a" (String LF "b")))
                           (JS.Str "7 hours; paid") (JS.Str "")]
                  outlook _ eq_refl)).
Defined.

(* ================================================================== *)
(** * The order of arrival and the schedule *)

Section Representatives.

Context {A B : Type} (R : A -> A -> bool) (f : A -> B).
Hypothesis R_sym : forall a b, R a b = R b a.
Hypothesis R_trans : forall a b c, R a b = true -> R b c = true -> R a c = true.
Hypothesis R_f : forall a b, R a b = true -> f a = f b.

Lemma distinct_without_one (l1 l2 : list A) (x : A) :
  ForallOrdPairs (fun a b => R a b = false) (l1 ++ x :: l2) ->
  ForallOrdPairs (fun a b => R a b = false) (l1 ++ l2)
  /\ Forall (fun y => R y x = false) (l1 ++ l2).
Proof.
  induction l1 as [| b l1 IH]; cbn [app]; intros H.
  - inversion H as [| ? ? Hx Hl]; subst. split; [assumption|].
    eapply Forall_impl; [| exact Hx]. intros y Hy. now rewrite R_sym.
  - inversion H as [| ? ? Hb Hl]; subst.
    destruct (IH Hl) as [Hp Hf].
    apply Forall_app in Hb as [Hb1 Hb2].
    inversion Hb2 as [| ? ? Hbx Hb2']; subst.
    split.
    + constructor; [| assumption]. apply Forall_app. now split.
    + constructor; assumption.
Qed.

Lemma representatives_permute (U : list A) :
  forall U',
    Forall (fun a => R a a = true) U ->
    ForallOrdPairs (fun a b => R a b = false) U ->
    ForallOrdPairs (fun a b => R a b = false) U' ->
    (forall a, In a U -> exists a', In a' U' /\ R a a' = true) ->
    (forall a', In a' U' -> exists a, In a U /\ R a' a = true) ->
    Permutation (map f U) (map f U').
Proof.
  induction U as [| a U1 IH]; intros U' Hr Hd Hd' Hto Hfrom.
  - destruct U' as [| a' U']; [constructor|].
    destruct (Hfrom a' (or_introl eq_refl)) as (x & [] & _).
  - destruct (Hto a (or_introl eq_refl)) as (a' & Ha' & Raa').
    apply in_split in Ha' as (L1 & L2 & ->).
    inversion Hr as [| ? ? Ra Hr1]; subst.
    inversion Hd as [| ? ? Hda Hd1]; subst.
    destruct (distinct_without_one L1 L2 a' Hd') as [Hd'' Hf''].
    rewrite map_app. cbn [map]. rewrite <- (R_f _ _ Raa').
    apply Permutation_cons_app. rewrite <- map_app.
    apply IH; auto.
    + intros x Hx.
      destruct (Hto x (or_intror Hx)) as (x' & Hx' & Rxx').
      exists x'. split; [| assumption].
      apply in_app_or in Hx' as [Hx' | [<- | Hx']];
        [apply in_or_app; now left | | apply in_or_app; now right].
      exfalso. rewrite Forall_forall in Hda.
      specialize (Hda x Hx).
      rewrite (R_trans a a' x Raa') in Hda; [discriminate|].
      now rewrite R_sym.
    + intros y Hy.
      assert (Hy' : In y (L1 ++ a' :: L2)).
      { apply in_app_or in Hy as [Hy | Hy]; apply in_or_app;
          [now left | right; now right]. }
      destruct (Hfrom y Hy') as (x & [<- | Hx] & Ryx); [| eauto].
      exfalso. rewrite Forall_forall in Hf''.
      specialize (Hf'' y Hy).
      rewrite (R_trans y a a' Ryx Raa') in Hf''. discriminate.
Qed.

End Representatives.

Section SortedUnique.

Context {B : Type} (le : B -> B -> Prop).
Hypothesis le_antisym : forall a b, le a b -> le b a -> a = b.

Lemma sorted_permutation_unique (l1 : list B) :
  forall l2,
    StronglySorted le l1 -> StronglySorted le l2 -> Permutation l1 l2 ->
    l1 = l2.
Proof.
  induction l1 as [| a t1 IH]; intros l2 S1 S2 P.
  - now apply Permutation_nil in P.
  - destruct l2 as [| b t2];
      [apply Permutation_sym, Permutation_nil in P; discriminate|].
    inversion S1 as [| ? ? S1' F1]; subst.
    inversion S2 as [| ? ? S2' F2]; subst.
    assert (E : a = b).
    { assert (Ha : In a (b :: t2))
        by (eapply Permutation_in; [exact P | now left]).
      assert (Hb : In b (a :: t1))
        by (eapply Permutation_in; [symmetry; exact P | now left]).
      destruct Ha as [-> | Ha]; [reflexivity|].
      destruct Hb as [-> | Hb]; [reflexivity|].
      rewrite Forall_forall in F1, F2. apply le_antisym; auto. }
    subst b. f_equal. apply IH; auto.
    now apply Permutation_cons_inv in P.
Qed.

End SortedUnique.

Lemma sameTriple_start (a b : ScheduleEvent) :
  sameTriple a b = true -> start a = start b.
Proof.
  unfold sameTriple, sameDate. rewrite !andb_true_iff. intros [[S _] _].
  destruct (start a), (start b); try discriminate; [| reflexivity].
  apply Z.eqb_eq in S. now subst.
Qed.

Lemma sorted_starts (l : list ScheduleEvent) :
  StronglySorted startLe l -> StronglySorted notAfter (map start l).
Proof.
  induction 1 as [| x l Hs IH Hx]; cbn [map]; constructor; [assumption|].
  apply Forall_map. exact Hx.
Qed.

Lemma uniqueEvents_starts_permute (l l' : list ScheduleEvent) :
  Permutation l l' ->
  Permutation (map start (uniqueEvents l)) (map start (uniqueEvents l')).
Proof.
  intros P. rewrite !uniqueEvents_keepUnmatched.
  assert (T : forall l l', Permutation l l' ->
              forall a, In a (keepUnmatched [] l) ->
              exists a', In a' (keepUnmatched [] l')
                         /\ sameTriple a a' = true).
  { intros m m' Pm a Ha.
    pose proof (keepUnmatched_kept m []) as K. rewrite Forall_forall in K.
    destruct (K a Ha) as [Hv _].
    apply keepUnmatched_subset in Ha.
    apply (Permutation_in _ Pm) in Ha.
    destruct (keepUnmatched_represents m' [] a Ha Hv)
      as [H | (x & [] & _)]. exact H. }
  apply (representatives_permute sameTriple start sameTriple_sym
           sameTriple_trans sameTriple_start).
  - eapply Forall_impl; [| apply (keepUnmatched_kept l [])].
    intros a [Ha _]. unfold sameTriple, sameDate.
    rewrite strict_equal_refl. destruct Ha as [Hs He]. unfold getTime in *.
    destruct (start a), (end_ a); try discriminate.
    now rewrite !Z.eqb_refl.
  - apply keepUnmatched_distinct.
  - apply keepUnmatched_distinct.
  - apply T, P.
  - apply T. now symmetry.
Qed.

(** The timetable does not depend on the order in which the Events arrive:
    whichever way the gathered Events are permuted, the final sequence shows
    the same start instants in the same order, and every triple of the one
    final sequence is a triple of the other.  (Which description and
    location a triple carries, and the order among Events that start
    together, do depend on arrival.) *)
Theorem timetable_is_independent_of_arrival_order
        (allEvents reordered : list ScheduleEvent) :
  Permutation allEvents reordered ->
  map start (finalEvents allEvents) = map start (finalEvents reordered)
  /\ forall e,
       In e (finalEvents allEvents) ->
       exists e', In e' (finalEvents reordered) /\ sameTriple e e' = true.
Proof.
  intros P. split.
  - apply (sorted_permutation_unique notAfter).
    + intros a b. unfold notAfter.
      destruct a, b; try contradiction. intros. f_equal. lia.
    + apply sorted_starts. unfold finalEvents.
      rewrite uniqueEvents_keepUnmatched. apply sort_sorted.
      eapply Forall_impl; [| apply (keepUnmatched_kept allEvents [])].
      now intros a [Ha _].
    + apply sorted_starts. unfold finalEvents.
      rewrite uniqueEvents_keepUnmatched. apply sort_sorted.
      eapply Forall_impl; [| apply (keepUnmatched_kept reordered [])].
      now intros a [Ha _].
    + unfold finalEvents.
      rewrite <- (sort_perm compareStart (uniqueEvents allEvents)).
      rewrite <- (sort_perm compareStart (uniqueEvents reordered)).
      now apply uniqueEvents_starts_permute.
  - intros e He. unfold finalEvents in *.
    apply (Permutation_in _ (Permutation_sym (sort_perm compareStart _)))
      in He.
    rewrite uniqueEvents_keepUnmatched in He.
    pose proof (keepUnmatched_kept allEvents []) as K.
    rewrite Forall_forall in K. destruct (K e He) as [Hv _].
    apply keepUnmatched_subset in He. apply (Permutation_in _ P) in He.
    destruct (keepUnmatched_represents reordered [] e He Hv)
      as [(e' & He' & Hee') | (x & [] & _)].
    exists e'. split; [| assumption].
    apply (Permutation_in _ (sort_perm compareStart _)).
    now rewrite uniqueEvents_keepUnmatched.
Qed.

Lemma timetable_is_independent_of_arrival_order_witness :
  map start
      (finalEvents
         [mkEvent (Some 30) (Some 40) (JS.Str "Late") (JS.Str "") (JS.Str "");
          mkEvent (Some 10) (Some 20) (JS.Str "Early") (JS.Str "a")
                  (JS.Str "");
          mkEvent (Some 10) (Some 20) (JS.Str "Early") (JS.Str "b")
                  (JS.Str "")])
  = map start
        (finalEvents
           [mkEvent (Some 10) (Some 20) (JS.Str "Early") (JS.Str "b")
                    (JS.Str "");
            mkEvent (Some 10) (Some 20) (JS.Str "Early") (JS.Str "a")
                    (JS.Str "");
            mkEvent (Some 30) (Some 40) (JS.Str "Late") (JS.Str "")
                    (JS.Str "")]).
Proof.
  apply (proj1 (timetable_is_independent_of_arrival_order _ _
                  (Permutation_rev
                     [mkEvent (Some 30) (Some 40) (JS.Str "Late") (JS.Str "")
                              (JS.Str "");
                      mkEvent (Some 10) (Some 20) (JS.Str "Early")
                              (JS.Str "a") (JS.Str "");
                      mkEvent (Some 10) (Some 20) (JS.Str "Early")
                              (JS.Str "b") (JS.Str "")]))).
Defined.
